(** * Deep-BSDE time stepping of [fbsde_raissi_eqx.py]: a shallow embedding

    The development follows [src/high-dim-pde/fbsde_raissi_eqx.py].

    Modelling conventions.
    - A floating-point scalar is a real number ([R]); [jnp.sqrt] is [sqrt].
      Reals neither round, overflow, underflow nor hold a NaN: [sqrt dt] is
      the number the program computes for [0 <= dt] only (for [dt < 0] the
      program's increment is NaN), so a property of the values a step
      draws is stated for [0 <= dt], and no property of the program is
      stated that concludes, from a squared difference being zero, that two
      values are equal.
    - A one-dimensional [jnp] array is a [list R]; the shape [(n,)] is the
      length of the list.  Element-wise binary operations follow numpy's
      broadcasting rule for rank-one operands and fail ([None]) on
      incompatible shapes, where the Python program raises.
    - A Python integer (the step counter) is a [Z].
    - [jax.random] is an interface ([PRNG]): a deterministic [split] and a
      deterministic sampler, both pure functions of the key.
    - [eqx.nn.MLP] is an opaque differentiable map: its forward function and
      the pullback [jax.vjp] derives from it. *)

From Stdlib Require Import Reals Lra List ZArith Lia Bool PeanoNat.
From Stdlib Require Import Classical_Prop.
Import ListNotations.

Local Open Scope R_scope.

(** ** The error monad of shape checking *)

Definition bind {A B : Type} (m : option A) (k : A -> option B) : option B :=
  match m with
  | Some a => k a
  | None => None
  end.

Notation "x <- m ;; k" := (bind m (fun x => k))
  (at level 61, m at next level, right associativity).
Notation "' pat <- m ;; k" := (bind m (fun x => match x with pat => k end))
  (at level 61, pat pattern, m at next level, right associativity).

Fixpoint mapM {A B : Type} (f : A -> option B) (l : list A) : option (list B) :=
  match l with
  | [] => Some []
  | a :: l' => b <- f a ;; bs <- mapM f l' ;; Some (b :: bs)
  end.

(** ** Rank-one arrays *)

Definition array := list R.

Fixpoint zip_with (f : R -> R -> R) (a b : array) : array :=
  match a, b with
  | x :: a', y :: b' => f x y :: zip_with f a' b'
  | _, _ => []
  end.

(** numpy broadcasting of two rank-one operands: equal shapes combine
    entry by entry, a shape [(1,)] operand is stretched, anything else is a
    shape error. *)
Definition broadcast (f : R -> R -> R) (a b : array) : option array :=
  if (length a =? length b)%nat then Some (zip_with f a b)
  else if (length a =? 1)%nat then Some (map (f (hd 0 a)) b)
  else if (length b =? 1)%nat then Some (map (fun x => f x (hd 0 b)) a)
  else None.

Definition add := broadcast Rplus.
Definition sub := broadcast Rminus.
Definition mul := broadcast Rmult.

(** [a * c] and [c * a] for an array [a] and a scalar [c]. *)
Definition scale_r (a : array) (c : R) : array := map (fun x => x * c) a.
Definition scale_l (c : R) (a : array) : array := map (fun x => c * x) a.

Definition sum (a : array) : R := fold_right Rplus 0 a.
(** [jnp.sum(a, keepdims=True)] on a rank-one array. *)
Definition sum_keepdims (a : array) : array := [sum a].

Definition zeros (n : nat) : array := repeat 0 n.
Definition ones (n : nat) : array := repeat 1 n.
Definition zeros_like (a : array) : array := zeros (length a).
Definition full1 (v : R) : array := [v].
Definition square (a : array) : array := map (fun x => x * x) a.
(** [X ** 2] *)
Definition pow2 (a : array) : array := map (fun x => x ^ 2) a.

Infix "+?" := add (at level 50, left associativity).
Infix "-?" := sub (at level 50, left associativity).
Infix "*?" := mul (at level 40, left associativity).

(** Entry-wise operations on operands of one shape, and the inner product;
    the statements below are written with them. *)
Definition vadd := zip_with Rplus.
Definition hadamard := zip_with Rmult.
Definition dot (a b : array) : R := sum (hadamard a b).
Definition sq_err (a b : array) : R := sum (square (zip_with Rminus a b)).

(** [X] with entry [j] replaced by [t]. *)
Fixpoint set_entry (j : nat) (t : R) (X : array) : array :=
  match X, j with
  | [], _ => []
  | _ :: X', O => t :: X'
  | x :: X', S j' => x :: set_entry j' t X'
  end.

(** ** The random-number interface ([jax.random]) *)

Class PRNG (key : Type) := {
  (** [jrandom.split(key)]: the two derived keys. *)
  split : key -> key * key;
  (** entry [j] of [jrandom.normal(key, (n,))]. *)
  normal_entry : key -> nat -> nat -> R
}.

Definition normal {key} `{PRNG key} (k : key) (n : nat) : array :=
  map (normal_entry k n) (seq 0 n).

(** ** The network ([eqx.nn.MLP]) and the oracle ([FNN]) *)

Record MLP := {
  in_size : nat;
  (** the forward pass on an input of shape [(in_size,)] *)
  forward : array -> array;
  (** [pullback v ct]: the cotangent of the input at [v] for the output
      cotangent [ct], as [jax.vjp] computes it *)
  pullback : array -> array -> array
}.

(** Applying the network checks the input shape. *)
Definition MLP_call (m : MLP) (v : array) : option array :=
  if (length v =? in_size m)%nat then Some (forward m v) else None.

Record FNN := { mlp : MLP }.

(** [FNN.__call__]: the value, and the cotangent of [x] alone: the network
    is differentiated through [concatenate([t, x])], whose pullback to [x]
    is the slice after the entries of [t]. *)
Definition FNN_call (self : FNN) (t x : array) : option (array * array) :=
  y <- MLP_call (mlp self) (t ++ x) ;;
  let dudx := skipn (length t) (pullback (mlp self) (t ++ x) (ones (length y))) in
  Some (y, dudx).

(** ** The single-step transition ([FBSDEStep]) *)

Record FBSDEStep := {
  unet : FNN;
  noise_size : nat;
  mu_fn : array -> array -> array -> array -> option array;
  sigma_fn : array -> array -> array -> option array;
  phi_fn : array -> array -> array -> array -> option array
}.

(** The coefficient functions [FBSDEStep.__init__] installs. *)
Definition default_mu_fn (t X Y Z : array) : option array :=
  Some (zeros_like X).

Definition default_sigma_fn (t X Y : array) : option array :=
  Some (scale_l (4 / 10) X).

Definition default_phi_fn (t X Y Z : array) : option array :=
  xz <- X *? Z ;;
  d <- Y -? sum_keepdims xz ;;
  Some (scale_l (5 / 100) d).

Definition u_and_dudx (self : FBSDEStep) (t x : array) : option (array * array) :=
  FNN_call (unet self) t x.

(** The same step with another oracle network. *)
Definition with_unet (self : FBSDEStep) (u : FNN) : FBSDEStep :=
  {| unet := u;
     noise_size := noise_size self;
     mu_fn := mu_fn self;
     sigma_fn := sigma_fn self;
     phi_fn := phi_fn self |}.

Definition has_default_coeffs (self : FBSDEStep) : Prop :=
  mu_fn self = default_mu_fn /\ sigma_fn self = default_sigma_fn /\
  phi_fn self = default_phi_fn.

Section Stepping.

Context {key : Type} `{PRNG key}.

(** The recurrence carry [(i, t0, dt, x0, y0, z0, key)]. *)
Definition Carry : Type := Z * R * R * array * array * array * key.
(** The per-step output [(x1, y1_tilde, y1)]. *)
Definition Output : Type := array * array * array.

Definition carry_i (c : Carry) : Z := let '(i, _, _, _, _, _, _) := c in i.
Definition carry_t0 (c : Carry) : R := let '(_, t0, _, _, _, _, _) := c in t0.
Definition carry_dt (c : Carry) : R := let '(_, _, dt, _, _, _, _) := c in dt.
Definition carry_x (c : Carry) : array := let '(_, _, _, x, _, _, _) := c in x.
Definition carry_y (c : Carry) : array := let '(_, _, _, _, y, _, _) := c in y.
Definition carry_z (c : Carry) : array := let '(_, _, _, _, _, z, _) := c in z.
Definition carry_key (c : Carry) : key := let '(_, _, _, _, _, _, k) := c in k.

(** [FBSDEStep.__call__] *)
Definition FBSDEStep_call (self : FBSDEStep) (carry : Carry)
  : option (Carry * Output) :=
  let '(i, t0, dt, x0, y0, z0, key0) := carry in
  let '(key1, key2) := split key0 in
  let curr_t := full1 (t0 + IZR i * dt) in
  let next_t := full1 (t0 + IZR (i + 1) * dt) in
  let dW := scale_r (normal key1 (noise_size self)) (sqrt dt) in
  m <- mu_fn self curr_t x0 y0 z0 ;;
  xm <- x0 +? scale_r m dt ;;
  s <- sigma_fn self curr_t x0 y0 ;;
  sdW <- s *? dW ;;
  x1 <- xm +? sdW ;;
  p <- phi_fn self curr_t x0 y0 z0 ;;
  yp <- y0 +? scale_r p dt ;;
  s' <- sigma_fn self curr_t x0 y0 ;;
  zs <- z0 *? s' ;;
  zsdW <- zs *? dW ;;
  y1_tilde <- yp +? sum_keepdims zsdW ;;
  '(y1, z1) <- FNN_call (unet self) next_t x1 ;;
  Some ((i + 1, t0, dt, x1, y1, z1, key2)%Z, (x1, y1_tilde, y1)).

(** ** The trajectory simulator ([NeuralFBSDE]) *)

(** Two carries have the same type when their arrays have the same shapes. *)
Definition carry_same_shape (c c' : Carry) : bool :=
  (length (carry_x c) =? length (carry_x c'))%nat &&
  (length (carry_y c) =? length (carry_y c'))%nat &&
  (length (carry_z c) =? length (carry_z c'))%nat.

Fixpoint scan_loop (f : Carry -> option (Carry * Output)) (c : Carry) (n : nat)
  : option (Carry * list Output) :=
  match n with
  | O => Some (c, [])
  | S n' =>
      '(c1, o) <- f c ;;
      '(cf, os) <- scan_loop f c1 n' ;;
      Some (cf, o :: os)
  end.

(** [jax.lax.scan(f, init, None, length=n)].  The body is first traced once
    on the initial carry, whatever [n] is: a shape error of the body, or a
    carry that changes its type, is raised before any step runs.  [unroll]
    only changes how the loop is compiled. *)
Definition lax_scan (f : Carry -> option (Carry * Output)) (init : Carry)
    (n : nat) (unroll : nat) : option (Carry * list Output) :=
  '(c1, _) <- f init ;;
  if carry_same_shape init c1 then scan_loop f init n else None.

(** The stacked outputs of a scan: one list per leaf of the output tuple. *)
Definition Stacked : Type := list array * list array * list array.

Definition stack (os : list Output) : Stacked :=
  (map (fun o => fst (fst o)) os, map (fun o => snd (fst o)) os, map snd os).

Record NeuralFBSDE := {
  step : FBSDEStep;
  hidden_size : Z;
  depth : nat;
  width_size : nat
}.

(** [NeuralFBSDE.__call__] *)
Definition NeuralFBSDE_call (self : NeuralFBSDE) (x0 : array) (t0 dt : R)
    (num_timesteps unroll : nat) (key0 : key)
  : option (Carry * Stacked) :=
  '(y0, z0) <- u_and_dudx (step self) (zeros 1) x0 ;;
  let carry := (0%Z, t0, dt, x0, y0, z0, key0) in
  let step_fn := fun carry => FBSDEStep_call (step self) carry in
  '(carry', output) <- lax_scan step_fn carry num_timesteps unroll ;;
  Some (carry', stack output).

(** *** Construction.  [eqx.nn.MLP(in_size, out_size, width_size, depth, key)]
    draws the initial weights from [key]. *)
Section Construction.

Variable eqx_nn_MLP : nat -> nat -> nat -> nat -> key -> MLP.

Definition FNN_init (in_sz out_sz width dep : nat) (k : key) : FNN :=
  {| mlp := eqx_nn_MLP in_sz out_sz width dep k |}.

Definition FBSDEStep_init (in_sz out_sz width dep noise : nat) (k : key)
  : FBSDEStep :=
  {| unet := FNN_init in_sz out_sz width dep k;
     noise_size := noise;
     mu_fn := default_mu_fn;
     sigma_fn := default_sigma_fn;
     phi_fn := default_phi_fn |}.

Definition NeuralFBSDE_init (in_sz out_sz width dep noise : nat) (k : key)
  : NeuralFBSDE :=
  {| step := FBSDEStep_init in_sz out_sz width dep noise k;
     hidden_size := Z.of_nat in_sz - 1;
     depth := dep;
     width_size := width |}.

End Construction.

(** ** The terminal condition *)

Definition g_fn (X : array) : array := sum_keepdims (pow2 X).

(** The pullback [jax.vjp(g_fn, X)] returns: the cotangent [ct] of the sum
    is handed to every entry, and the power rule multiplies it by
    [2 * x ^ 1]. *)
Definition g_fn_vjp (X : array) (ct : array) : array :=
  map (fun x => hd 0 ct * (2 * x ^ 1)) X.

Definition dg_fn (X : array) : array :=
  let y := g_fn X in
  g_fn_vjp X (ones (length y)).

(** ** The loss *)

(** [sum_square_error] on rank-one arrays. *)
Definition sum_square_error (y y_pred : array) : option R :=
  d <- y -? y_pred ;;
  Some (sum (square d)).

(** The same reduction on arrays with one more leading axis: the leading
    axes of the two operands agree entry by entry. *)
Fixpoint over_axis {A : Type} (f : A -> A -> option R) (a b : list A)
  : option R :=
  match a, b with
  | [], [] => Some 0
  | x :: a', y :: b' =>
      v <- f x y ;;
      r <- over_axis f a' b' ;;
      Some (v + r)
  | _, _ => None
  end.

Definition sum_square_error2 := over_axis sum_square_error.
Definition sum_square_error3 := over_axis sum_square_error2.

(** [jax.vmap(model, in_axes=(0, None, None, None, None, None))]: only the
    initial states are mapped over; [t0], [dt], [num_timesteps], [unroll]
    and [key] are handed unchanged to every member. *)
Definition vmap_model (model : NeuralFBSDE) (x0 : list array) (t0 dt : R)
    (num_timesteps unroll : nat) (key0 : key)
  : option (list (Carry * Stacked)) :=
  mapM (fun x => NeuralFBSDE_call model x t0 dt num_timesteps unroll key0) x0.

(** [loss_fn] of [train_step] *)
Definition loss_fn (x0 : list array) (t0 dt : R) (num_timesteps unroll : nat)
    (key0 : key) (model : NeuralFBSDE) : option (R * list (list array)) :=
  let loss := 0 in
  out <- vmap_model model x0 t0 dt num_timesteps unroll key0 ;;
  let x_final := map (fun r => carry_x (fst r)) out in
  let y_final := map (fun r => carry_y (fst r)) out in
  let z_final := map (fun r => carry_z (fst r)) out in
  let y_tilde_list := map (fun r => snd (fst (snd r))) out in
  let y_list := map (fun r => snd (snd r)) out in
  e1 <- sum_square_error3 y_tilde_list y_list ;;
  let loss := loss + e1 in
  e2 <- sum_square_error2 y_final (map g_fn x_final) ;;
  let loss := loss + e2 in
  e3 <- sum_square_error2 z_final (map dg_fn x_final) ;;
  let loss := loss + e3 in
  Some (loss, y_list).

(** *** [train_step].  Differentiation and the optimizer are collaborators. *)
Section Training.

Variables Grads Updates OptState : Type.
(** the gradient part of [eqx.filter_value_and_grad(loss_fn, has_aux=True)] *)
Variable filter_grad :
  (NeuralFBSDE -> option (R * list (list array))) -> NeuralFBSDE -> Grads.
Variable optimizer_update : Grads -> OptState -> Updates * OptState.
Variable apply_updates : NeuralFBSDE -> Updates -> NeuralFBSDE.

Definition train_step (model : NeuralFBSDE) (x0 : list array) (t0 dt : R)
    (num_timesteps : nat) (opt_state : OptState) (unroll : nat) (key0 : key)
  : option (R * NeuralFBSDE * OptState * list (list array)) :=
  let loss_fn' := loss_fn x0 t0 dt num_timesteps unroll key0 in
  '(loss, y) <- loss_fn' model ;;
  let grads := filter_grad loss_fn' model in
  let '(updates, opt_state') := optimizer_update grads opt_state in
  let model' := apply_updates model updates in
  Some (loss, model', opt_state', y).

End Training.

(** ** Notions used by the statements *)

(** The Gaussian increment of a step that receives the key [k] and has
    noise dimension [n]. *)
Definition increment (n : nat) (dt : R) (k : key) : array :=
  scale_r (normal (fst (split k)) n) (sqrt dt).

(** The body of a step once the increment [dW] and the key to carry on are
    given: it has no access to the generator. *)
Definition step_body (self : FBSDEStep) (i : Z) (t0 dt : R)
    (x0 y0 z0 dW : array) (key2 : key) : option (Carry * Output) :=
  let curr_t := [t0 + IZR i * dt] in
  let next_t := [t0 + IZR (i + 1) * dt] in
  m <- mu_fn self curr_t x0 y0 z0 ;;
  xm <- x0 +? scale_r m dt ;;
  s <- sigma_fn self curr_t x0 y0 ;;
  sdW <- s *? dW ;;
  x1 <- xm +? sdW ;;
  p <- phi_fn self curr_t x0 y0 z0 ;;
  yp <- y0 +? scale_r p dt ;;
  zs <- z0 *? s ;;
  zsdW <- zs *? dW ;;
  y1_tilde <- yp +? [sum zsdW] ;;
  '(y1, z1) <- FNN_call (unet self) next_t x1 ;;
  Some ((i + 1, t0, dt, x1, y1, z1, key2)%Z, (x1, y1_tilde, y1)).

(** The key reached from [k] along a path of choices in the splitting tree:
    [false] takes the first half of a split, [true] the second. *)
Fixpoint derive (k : key) (path : list bool) : key :=
  match path with
  | [] => k
  | b :: path' => derive (if b then snd (split k) else fst (split k)) path'
  end.

(** The key a trajectory started with [k] carries into step [n], and the
    key that step draws its increment from. *)
Definition carried_key (k : key) (n : nat) : key := derive k (repeat true n).
Definition draw_key (k : key) (n : nat) : key :=
  derive k (repeat true n ++ [false]).



(** An ideal splittable generator never produces one key along two
    different paths from [k]. *)
Definition split_fresh (k : key) : Prop :=
  forall p q, derive k p = derive k q -> p = q.

(** Shapes of a valid configuration of state dimension [d]: the network
    takes the time and the state and returns one value. *)
Definition oracle_shaped (d : nat) (u : FNN) : Prop :=
  in_size (mlp u) = S d /\
  forall v, length v = S d ->
    length (forward (mlp u) v) = 1%nat /\
    length (pullback (mlp u) v (ones 1)) = S d.

Definition coeffs_shaped (d : nat) (s : FBSDEStep) : Prop :=
  forall t x y z,
    length t = 1%nat -> length x = d -> length y = 1%nat -> length z = d ->
    (exists m, mu_fn s t x y z = Some m /\ length m = d) /\
    (exists g, sigma_fn s t x y = Some g /\ length g = d) /\
    (exists p, phi_fn s t x y z = Some p /\ length p = 1%nat).

Definition step_shaped (d : nat) (s : FBSDEStep) : Prop :=
  oracle_shaped d (unet s) /\ coeffs_shaped d s /\ noise_size s = d.

Definition carry_shaped (d : nat) (c : Carry) : Prop :=
  length (carry_x c) = d /\ length (carry_y c) = 1%nat /\
  length (carry_z c) = d.

Definition output_shaped (d : nat) (o : Output) : Prop :=
  length (fst (fst o)) = d /\ length (snd (fst o)) = 1%nat /\
  length (snd o) = 1%nat.

(** What a batch member looks like after a run in a valid configuration. *)
Definition member_shaped (d : nat) (r : Carry * Stacked) : Prop :=
  exists cf os, r = (cf, stack os) /\ carry_shaped d cf /\
                Forall (output_shaped d) os.

(** The forward states under the coefficients of [FBSDEStep.__init__]. *)
Definition default_x_next (n : nat) (x : array) (dt : R) (k : key) : array :=
  vadd (vadd x (scale_r (zeros_like x) dt))
       (hadamard (scale_l (4 / 10) x) (increment n dt k)).

Fixpoint default_x_path (n : nat) (x : array) (dt : R) (k : key)
    (steps : nat) : list array :=
  match steps with
  | O => []
  | S steps' =>
      let x1 := default_x_next n x dt k in
      x1 :: default_x_path n x1 dt (snd (split k)) steps'
  end.

(** The loss as the specification words it: every batch member
    contributes its step-consistency errors and its two terminal errors. *)
Definition member_loss (r : Carry * Stacked) : R :=
  let '(c, (_, y_tilde, y)) := r in
  fold_right Rplus 0 (map (fun p => sq_err (fst p) (snd p)) (combine y_tilde y))
  + sq_err (carry_y c) (g_fn (carry_x c))
  + sq_err (carry_z c) (map (fun x => 2 * x) (carry_x c)).

Definition spec_loss (out : list (Carry * Stacked)) : R :=
  fold_right Rplus 0 (map member_loss out).

End Stepping.

(** ** The training driver ([train])

    [Args] is the dataclass of the command line.  The driver is modelled
    for what it computes: the initial batch, the model, the optimizer state
    and the loop of training steps.  The cost-model features are produced by
    the compiler's cost analysis and enter as a collaborator; the wall-clock
    times and the printed line are left out. *)

Module Args.
Record t := {
  batch_size : nat;
  dt : R;
  dim : nat;
  num_timesteps : nat;
  num_iters : nat;
  depth : nat;
  width_size : nat;
  unroll : nat;
  T : R
}.
End Args.

(** [jnp.broadcast_to(x, (rows, cols))] for a rank-one [x]. *)
Definition broadcast_to (x : array) (rows cols : nat) : option (list array) :=
  if (length x =? cols)%nat then Some (repeat x rows)
  else if (length x =? 1)%nat then Some (repeat (repeat (hd 0 x) cols) rows)
  else None.

(** [x0 = jnp.array([1.0, 0.5] * int(args.dim / 2))] broadcast to
    [(args.batch_size, args.dim)]. *)
Definition train_x0 (args : Args.t) : option (list array) :=
  let x0 := concat (repeat [1; 1 / 2] (Args.dim args / 2)) in
  broadcast_to x0 (Args.batch_size args) (Args.dim args).

Section Driver.

Context {key : Type} `{PRNG key}.

Variable PRNGKey : Z -> key.
Variable eqx_nn_MLP : nat -> nat -> nat -> nat -> key -> MLP.
Variables Grads Updates OptState Features : Type.
Variable filter_grad :
  (NeuralFBSDE -> option (R * list (list array))) -> NeuralFBSDE -> Grads.
Variable optimizer_update : Grads -> OptState -> Updates * OptState.
Variable apply_updates : NeuralFBSDE -> Updates -> NeuralFBSDE.
(** [optimizer.init(eqx.filter(model, eqx.is_array))] *)
Variable optimizer_init : NeuralFBSDE -> OptState.
(** [model.make_cost_model_feature()], which may raise *)
Variable make_cost_model_feature : NeuralFBSDE -> option Features.

(** What one iteration of the loop hands to [train_step] and what it binds
    afterwards.  The statement [loss, model, loss, y_pred = train_step(...)]
    binds the name [loss] twice: it ends up holding the third component, the
    new optimizer state, and the name [opt_state] is never bound again. *)
Record Iteration := {
  it_key : key;
  it_model : NeuralFBSDE;
  it_opt_state : OptState;
  it_loss_value : R;
  it_loss : OptState;
  it_y_pred : list (list array)
}.

(** The [for] loop of [train], started with [iters] iterations to go. *)
Fixpoint train_loop (iters : nat) (args : Args.t) (x0 : list array)
    (opt_state : OptState) (rng : key) (model : NeuralFBSDE)
  : option (list Iteration * (key * NeuralFBSDE)) :=
  match iters with
  | O => Some ([], (rng, model))
  | S iters' =>
      let '(rng', _) := split rng in
      '(l, model', opt_state', y) <-
        train_step Grads Updates OptState filter_grad optimizer_update
          apply_updates model x0 0 (Args.dt args) (Args.num_timesteps args)
          opt_state (Args.unroll args) rng' ;;
      '(log, final) <- train_loop iters' args x0 opt_state rng' model' ;;
      Some ({| it_key := rng'; it_model := model; it_opt_state := opt_state;
               it_loss_value := l; it_loss := opt_state'; it_y_pred := y |}
              :: log, final)
  end.

(** [train]: the log of the iterations and the final key and model.  After
    the loop the name [compile_time], bound in the first iteration only, is
    read: with no iteration the program raises. *)
Definition train (args : Args.t)
  : option (list Iteration * (key * NeuralFBSDE)) :=
  let rng := PRNGKey 0 in
  let model :=
    NeuralFBSDE_init eqx_nn_MLP (Args.dim args + 1) 1 16 4 (Args.dim args) rng in
  _ <- make_cost_model_feature model ;;
  x0 <- train_x0 args ;;
  let opt_state := optimizer_init model in
  r <- train_loop (Args.num_iters args) args x0 opt_state rng model ;;
  if (Args.num_iters args =? 0)%nat then None else Some r.

(** The key iteration [i] of the loop hands to [train_step]. *)
Definition iter_key (k0 : key) (i : nat) : key := derive k0 (repeat false (S i)).

(** A network library that builds the scalar-valued networks [train] asks
    for with the input size it is given. *)
Definition MLP_sized : Prop :=
  forall i w dp k,
    in_size (eqx_nn_MLP i 1 w dp k) = i /\
    forall v, length v = i ->
      length (forward (eqx_nn_MLP i 1 w dp k) v) = 1%nat /\
      length (pullback (eqx_nn_MLP i 1 w dp k) v (ones 1)) = i.

(** An update that changes weights and no shape. *)
Definition updates_keep_shapes (d : nat) : Prop :=
  forall m u, step_shaped d (step m) -> step_shaped d (step (apply_updates m u)).

End Driver.


(** ** A concrete configuration

    Keys are positions in the binary splitting tree, and the network
    [eqx.nn.MLP] builds here is the linear map [v |-> w * sum v] whose
    weight [w] is read off the key. *)

#[global] Instance tree_PRNG : PRNG positive := {|
  split := fun k => (xO k, xI k);
  normal_entry := fun k n j => IZR (Z.pos k) + INR j
|}.

Definition linear_MLP (in_sz out_sz width dep : nat) (k : positive) : MLP := {|
  in_size := in_sz;
  forward := fun v => [IZR (Z.pos k) * sum v];
  pullback := fun v ct => map (fun _ => IZR (Z.pos k) * hd 0 ct) v
|}.

(** [NeuralFBSDE(in_size=3, out_size=1, width_size=16, depth=4,
    noise_size=2, key=k)] *)
Definition demo_model (k : positive) : NeuralFBSDE :=
  NeuralFBSDE_init linear_MLP 3 1 16 4 2 k.

Definition demo_x0 : array := [1; 1 / 2].

(** The step of [demo_model k] with [sigma] forced to the zero vector. *)
Definition zero_sigma_step (k : positive) : FBSDEStep := {|
  unet := unet (step (demo_model k));
  noise_size := 2;
  mu_fn := default_mu_fn;
  sigma_fn := fun _ X _ => Some (zeros_like X);
  phi_fn := default_phi_fn
|}.




(** A driver configuration over the same keys and networks: the optimizer
    state counts updates and an update is the weight of the next network. *)
Definition demo_update (g : unit) (n : nat) : positive * nat :=
  (Pos.of_nat (S (S n)), S n).

Definition demo_apply (m : NeuralFBSDE) (w : positive) : NeuralFBSDE :=
  NeuralFBSDE_init linear_MLP (in_size (mlp (unet (step m)))) 1 16 4
    (noise_size (step m)) w.

Definition demo_args : Args.t := {|
  Args.batch_size := 4; Args.dt := 1 / 5; Args.dim := 2;
  Args.num_timesteps := 5; Args.num_iters := 3; Args.depth := 3;
  Args.width_size := 64; Args.unroll := 10; Args.T := 1
|}.

Definition demo_train (args : Args.t) :=
  train (fun _ => 1%positive) linear_MLP unit positive nat unit
    (fun _ _ => tt) demo_update demo_apply (fun _ => O) (fun _ => Some tt)
    args.

(** * Properties *)

(** ** Arrays *)

Lemma bind_Some {A B} (m : option A) (k : A -> option B) a :
  m = Some a -> bind m k = k a.
Proof. intros ->. reflexivity. Qed.

Lemma bind_inv {A B} (m : option A) (k : A -> option B) b :
  bind m k = Some b -> exists a, m = Some a /\ k a = Some b.
Proof. destruct m as [a|]; simpl; [eauto | discriminate]. Qed.

Lemma mapM_pair {A B} (f : A -> option B) a b ra rb :
  f a = Some ra -> f b = Some rb -> mapM f [a; b] = Some [ra; rb].
Proof. intros Ea Eb. simpl. rewrite Ea. simpl. now rewrite Eb. Qed.

Lemma zip_with_length f a b :
  length a = length b -> length (zip_with f a b) = length a.
Proof.
  revert b. induction a as [|x a IH]; intros [|y b]; simpl; try discriminate; auto.
Qed.

Lemma scale_r_length a c : length (scale_r a c) = length a.
Proof. apply length_map. Qed.

Lemma scale_l_length c a : length (scale_l c a) = length a.
Proof. apply length_map. Qed.

Lemma normal_length {key} `{PRNG key} (k : key) n : length (normal k n) = n.
Proof. unfold normal. now rewrite length_map, length_seq. Qed.

Lemma zeros_length n : length (zeros n) = n.
Proof. apply repeat_length. Qed.

Lemma broadcast_same f a b :
  length a = length b -> broadcast f a b = Some (zip_with f a b).
Proof. intros E. unfold broadcast. now rewrite E, Nat.eqb_refl. Qed.

Lemma broadcast_length f a b r :
  length a = length b -> broadcast f a b = Some r -> length r = length a.
Proof.
  intros E. rewrite (broadcast_same f a b E). intros [= <-].
  now apply zip_with_length.
Qed.

Lemma hadamard_assoc a b c :
  hadamard (hadamard a b) c = hadamard a (hadamard b c).
Proof.
  revert b c. induction a as [|x a IH]; intros [|y b] [|z c]; simpl; auto.
  unfold hadamard in *. simpl. now rewrite IH, Rmult_assoc.
Qed.

Create Rewrite HintDb shape.
#[local] Hint Rewrite scale_r_length scale_l_length zeros_length
  @normal_length : shape.

(** ** The single step, in closed form *)

Section StepProperties.

Context {key : Type} `{PRNG key}.

Lemma increment_length n dt (k : key) : length (increment n dt k) = n.
Proof. unfold increment. now autorewrite with shape. Qed.

(** The step uses its key only through one split: the first half feeds the
    draw, the second half is carried on. *)
Lemma FBSDEStep_call_body self i t0 dt x y z (k : key) :
  FBSDEStep_call self (i, t0, dt, x, y, z, k) =
  step_body self i t0 dt x y z (increment (noise_size self) dt k)
    (snd (split k)).
Proof.
  unfold FBSDEStep_call, step_body, increment, full1, sum_keepdims.
  destruct (split k) as [k1 k2]; simpl fst; simpl snd.
  destruct (mu_fn self _ x y z); simpl; [|reflexivity].
  destruct (x +? _); simpl; [|reflexivity].
  destruct (sigma_fn self _ x y); simpl; reflexivity.
Qed.

(** On operands of one shape the body is one Euler-Maruyama update followed
    by one query of the oracle. *)
Lemma step_body_closed self i t0 dt x y z dW (k2 : key) m s p :
  let curr_t := [t0 + IZR i * dt] in
  let x1 := vadd (vadd x (scale_r m dt)) (hadamard s dW) in
  length m = length x -> length s = length x ->
  length dW = length x -> length z = length x ->
  mu_fn self curr_t x [y] z = Some m ->
  sigma_fn self curr_t x [y] = Some s ->
  phi_fn self curr_t x [y] z = Some [p] ->
  step_body self i t0 dt x [y] z dW k2 =
    ('(y1, z1) <- FNN_call (unet self) [t0 + IZR (i + 1) * dt] x1 ;;
     Some ((i + 1, t0, dt, x1, y1, z1, k2)%Z,
           (x1, [y + p * dt + dot z (hadamard s dW)], y1))).
Proof.
  intros curr_t x1 Hm Hs HdW Hz Emu Esg Ephi.
  unfold step_body. fold curr_t. rewrite Emu. simpl bind.
  unfold add, mul.
  rewrite (broadcast_same Rplus x), Esg
    by (now autorewrite with shape).
  simpl bind.
  rewrite (broadcast_same Rmult s) by congruence. simpl bind.
  rewrite (broadcast_same Rplus).
  2:{ rewrite !zip_with_length; autorewrite with shape; congruence. }
  simpl bind. rewrite Ephi. simpl bind.
  rewrite (broadcast_same Rmult z s) by congruence. simpl bind.
  rewrite (broadcast_same Rmult).
  2:{ rewrite zip_with_length; congruence. }
  simpl bind.
  pose proof (hadamard_assoc z s dW) as Eassoc.
  subst x1. unfold vadd, hadamard, dot in *.
  now rewrite Eassoc.
Qed.

Lemma FBSDEStep_call_closed self i t0 dt x y z k m s p :
  let curr_t := [t0 + IZR i * dt] in
  let dW := increment (noise_size self) dt k in
  let x1 := vadd (vadd x (scale_r m dt)) (hadamard s dW) in
  length m = length x -> length s = length x ->
  noise_size self = length x -> length z = length x ->
  mu_fn self curr_t x [y] z = Some m ->
  sigma_fn self curr_t x [y] = Some s ->
  phi_fn self curr_t x [y] z = Some [p] ->
  FBSDEStep_call self (i, t0, dt, x, [y], z, k) =
    ('(y1, z1) <- FNN_call (unet self) [t0 + IZR (i + 1) * dt] x1 ;;
     Some ((i + 1, t0, dt, x1, y1, z1, snd (split k))%Z,
           (x1, [y + p * dt + dot z (hadamard s dW)], y1))).
Proof.
  intros curr_t dW x1 Hm Hs Hn Hz Emu Esg Ephi.
  rewrite FBSDEStep_call_body.
  apply step_body_closed; auto.
  unfold dW. now rewrite increment_length.
Qed.

End StepProperties.

(** ** Steps and scans *)

Ltac bind_inv_all :=
  repeat match goal with
  | E : bind _ _ = Some _ |- _ =>
      let a := fresh "a" in
      let Ea := fresh "E" a in
      apply bind_inv in E as (a & Ea & E)
  | E : (let (_, _) := ?p in _) = Some _ |- _ => destruct p
  end.

Section ScanProperties.

Context {key : Type} `{PRNG key}.

Lemma FBSDEStep_call_inv self (c c' : Carry) o :
  FBSDEStep_call self c = Some (c', o) ->
  carry_i c' = (carry_i c + 1)%Z /\ carry_t0 c' = carry_t0 c /\
  carry_dt c' = carry_dt c /\ carry_key c' = snd (split (carry_key c)) /\
  fst (fst o) = carry_x c' /\ snd o = carry_y c'.
Proof.
  destruct c as [[[[[[i t0] dt] x] y] z] k].
  rewrite FBSDEStep_call_body. unfold step_body. intros E.
  bind_inv_all. injection E as <- <-. simpl. auto 6.
Qed.

Lemma carried_key_S (k : key) n :
  carried_key k (S n) = carried_key (snd (split k)) n.
Proof. reflexivity. Qed.

Lemma scan_loop_inv self n : forall (c cf : Carry) os,
  scan_loop (FBSDEStep_call self) c n = Some (cf, os) ->
  carry_i cf = (carry_i c + Z.of_nat n)%Z /\ carry_t0 cf = carry_t0 c /\
  carry_dt cf = carry_dt c /\ carry_key cf = carried_key (carry_key c) n /\
  length os = n.
Proof.
  induction n as [|n IH]; intros c cf os E.
  - injection E as <- <-. simpl. repeat split; auto. lia.
  - cbn [scan_loop] in E. bind_inv_all.
    injection E as <- <-.
    apply FBSDEStep_call_inv in Ea as (Ei & Et & Ed & Ek & _).
    apply IH in Ea0 as (Ei' & Et' & Ed' & Ek' & El).
    rewrite Ei', Et', Ed', Ek', Ei, Et, Ed, Ek, carried_key_S. simpl length.
    repeat split; auto. lia.
Qed.

(** *** Valid shapes: every step and every scan returns *)

Lemma FNN_call_shaped d u t x :
  oracle_shaped d u -> length x = d ->
  exists y z, FNN_call u [t] x = Some ([y], z) /\ length z = d.
Proof.
  intros [Hin Hsh] Hx. unfold FNN_call, MLP_call.
  change ([t] ++ x) with (t :: x).
  assert (Hv : length (t :: x) = S d) by (simpl; congruence).
  rewrite Hv, Hin, Nat.eqb_refl. cbn [bind length].
  destruct (Hsh _ Hv) as [Hy Hz].
  destruct (forward (mlp u) (t :: x)) as [|y [|? ?]]; try discriminate.
  exists y, (skipn 1 (pullback (mlp u) (t :: x) (ones 1))).
  split; [reflexivity|]. rewrite length_skipn, Hz. lia.
Qed.

Lemma FBSDEStep_call_shaped d s i t0 dt x y z (k : key) :
  step_shaped d s -> length x = d -> length z = d ->
  exists x1 yt y1 z1,
    FBSDEStep_call s (i, t0, dt, x, [y], z, k) =
      Some ((i + 1, t0, dt, x1, [y1], z1, snd (split k))%Z,
            (x1, [yt], [y1])) /\
    length x1 = d /\ length z1 = d.
Proof.
  intros (Hu & Hc & Hn) Hx Hz.
  destruct (Hc [t0 + IZR i * dt] x [y] z) as
    ((m & Em & Lm) & (g & Eg & Lg) & (p & Ep & Lp)); auto.
  destruct p as [|p [|? ?]]; try discriminate.
  rewrite (FBSDEStep_call_closed s i t0 dt x y z k m g p)
    by (assumption || congruence).
  set (x1 := vadd _ _).
  assert (Lx1 : length x1 = d).
  { assert (Lh : length (hadamard g (increment (noise_size s) dt k)) = d)
      by (unfold hadamard; rewrite zip_with_length;
          rewrite ?increment_length; congruence).
    assert (Lv : length (vadd x (scale_r m dt)) = d)
      by (unfold vadd; rewrite zip_with_length;
          rewrite ?scale_r_length; congruence).
    unfold x1, vadd at 1. rewrite zip_with_length; congruence. }
  destruct (FNN_call_shaped d (unet s) (t0 + IZR (i + 1) * dt) x1 Hu Lx1)
    as (y1 & z1 & E1 & Lz1).
  rewrite E1. simpl. eauto 10.
Qed.

Lemma scan_loop_shaped d s n : step_shaped d s ->
  forall c : Carry, carry_shaped d c ->
  exists cf os, scan_loop (FBSDEStep_call s) c n = Some (cf, os) /\
    carry_shaped d cf /\ Forall (output_shaped d) os.
Proof.
  intros Hs. induction n as [|n IH]; intros c Hc.
  - exists c, []. simpl. auto.
  - destruct c as [[[[[[i t0] dt] x] y] z] k].
    destruct Hc as (Hx & Hy & Hz). simpl in Hx, Hy, Hz.
    destruct y as [|y [|? ?]]; try discriminate.
    destruct (FBSDEStep_call_shaped d s i t0 dt x y z k Hs Hx Hz)
      as (x1 & yt & y1 & z1 & E & Lx1 & Lz1).
    destruct (IH (i + 1, t0, dt, x1, [y1], z1, snd (split k))%Z)
      as (cf & os & E' & Hcf & Hos).
    { repeat split; assumption. }
    exists cf, ((x1, [yt], [y1]) :: os).
    cbn [scan_loop]. erewrite bind_Some by exact E. cbv beta iota.
    rewrite E'. simpl.
    split; [reflexivity | split; [exact Hcf|]].
    constructor; [repeat split; assumption | exact Hos].
Qed.

Lemma lax_scan_shaped d s n unroll (c : Carry) :
  step_shaped d s -> carry_shaped d c ->
  lax_scan (FBSDEStep_call s) c n unroll = scan_loop (FBSDEStep_call s) c n.
Proof.
  intros Hs Hc. unfold lax_scan.
  destruct c as [[[[[[i t0] dt] x] y] z] k].
  destruct Hc as (Hx & Hy & Hz). simpl in Hx, Hy, Hz.
  destruct y as [|y [|? ?]]; try discriminate.
  destruct (FBSDEStep_call_shaped d s i t0 dt x y z k Hs Hx Hz)
    as (x1 & yt & y1 & z1 & E & Lx1 & Lz1).
  erewrite bind_Some by exact E. cbv beta iota.
  unfold carry_same_shape. simpl carry_x. simpl carry_y. simpl carry_z.
  rewrite Hx, Lx1, Hz, Lz1, !Nat.eqb_refl. reflexivity.
Qed.

Lemma NeuralFBSDE_call_shaped d m x0 t0 dt n unroll (k : key) :
  step_shaped d (step m) -> length x0 = d ->
  exists y0 z0 cf os,
    u_and_dudx (step m) [0] x0 = Some ([y0], z0) /\
    scan_loop (FBSDEStep_call (step m)) (0%Z, t0, dt, x0, [y0], z0, k) n
      = Some (cf, os) /\
    NeuralFBSDE_call m x0 t0 dt n unroll k = Some (cf, stack os) /\
    carry_shaped d cf /\ Forall (output_shaped d) os.
Proof.
  intros Hs Hx.
  destruct (FNN_call_shaped d (unet (step m)) 0 x0 (proj1 Hs) Hx)
    as (y0 & z0 & E0 & Lz0).
  assert (Hc : carry_shaped d (0%Z, t0, dt, x0, [y0], z0, k))
    by (repeat split; assumption).
  destruct (scan_loop_shaped d (step m) n Hs _ Hc) as (cf & os & E & Hcf & Hos).
  exists y0, z0, cf, os. unfold NeuralFBSDE_call, u_and_dudx.
  change (zeros 1) with [0]. erewrite bind_Some by exact E0. cbv beta iota.
  rewrite (lax_scan_shaped d) by assumption.
  erewrite bind_Some by exact E. auto.
Qed.

(** *** The coefficients of [FBSDEStep.__init__] respect shapes *)

Lemma default_coeffs_shaped d s : has_default_coeffs s -> coeffs_shaped d s.
Proof.
  intros (Em & Es & Ep) t x y z _ Hx Hy Hz. rewrite Em, Es, Ep.
  repeat split.
  - exists (zeros_like x). split; [reflexivity|].
    unfold zeros_like. now rewrite zeros_length.
  - exists (scale_l (4 / 10) x). split; [reflexivity|].
    now rewrite scale_l_length.
  - unfold default_phi_fn, mul, sub.
    rewrite (broadcast_same Rmult x z) by congruence. simpl bind.
    rewrite broadcast_same by (rewrite Hy; reflexivity). simpl bind.
    eexists. split; [reflexivity|].
    rewrite scale_l_length, zip_with_length; [exact Hy|].
    rewrite Hy; reflexivity.
Qed.

Lemma demo_model_shaped k : step_shaped 2 (step (demo_model k)).
Proof.
  split; [|split].
  - split; [reflexivity|]. intros v Hv. simpl.
    rewrite length_map. auto.
  - apply default_coeffs_shaped. repeat split.
  - reflexivity.
Qed.

End ScanProperties.

(** ** Zero diffusion and the terminal condition *)

Lemma dot_hadamard_zeros n z dW : dot z (hadamard (zeros n) dW) = 0.
Proof.
  unfold dot, hadamard, zeros.
  revert z dW. induction n as [|n IH]; intros [|a z] [|b dW]; simpl; auto.
  rewrite IH. lra.
Qed.

Lemma vadd_hadamard_zeros a n dW :
  length a = n -> length dW = n -> vadd a (hadamard (zeros n) dW) = a.
Proof.
  unfold vadd, hadamard, zeros. intros <-.
  revert dW. induction a as [|x a IH]; intros [|b dW]; simpl;
    try discriminate; auto.
  intros [= E]. rewrite (IH _ E). f_equal. lra.
Qed.

Lemma g_fn_length X : length (g_fn X) = 1%nat.
Proof. reflexivity. Qed.

Lemma dg_fn_eq X : dg_fn X = map (fun x => 2 * x) X.
Proof.
  unfold dg_fn, g_fn_vjp. rewrite g_fn_length. simpl hd.
  apply map_ext. intros x. lra.
Qed.

(** The pullback [dg_fn] evaluates is the gradient of [g_fn]: entry [j] of
    [dg_fn X] is the derivative of [g_fn] in the [j]-th coordinate. *)
Lemma g_fn_partial X : forall j, (j < length X)%nat ->
  derivable_pt_lim (fun t => sum (pow2 (set_entry j t X)))
    (nth j X 0) (2 * nth j X 0).
Proof.
  induction X as [|x X IH]; intros j Hj; [inversion Hj|].
  destruct j as [|j]; simpl.
  - replace (2 * x) with (INR 2 * x ^ pred 2 + 0) by (simpl; lra).
    apply (derivable_pt_lim_plus (fun t => t ^ 2) (fun _ => sum (pow2 X))).
    + apply derivable_pt_lim_pow.
    + apply derivable_pt_lim_const.
  - replace (2 * nth j X 0) with (0 + 2 * nth j X 0) by lra.
    apply (derivable_pt_lim_plus (fun _ => x * (x * 1))
             (fun t => sum (pow2 (set_entry j t X)))).
    + apply derivable_pt_lim_const.
    + apply IH. simpl in Hj. lia.
Qed.

Lemma dg_fn_is_gradient X j : (j < length X)%nat ->
  derivable_pt_lim (fun t => hd 0 (g_fn (set_entry j t X)))
    (nth j X 0) (nth j (dg_fn X) 0).
Proof.
  intros Hj. rewrite dg_fn_eq.
  replace (nth j (map (fun x => 2 * x) X) 0) with (2 * nth j X 0).
  - now apply g_fn_partial.
  - replace 0 with (2 * 0) at 2 by lra.
    now rewrite (map_nth (fun x => 2 * x)).
Qed.

(** ** Keys along a trajectory *)

Section Keys.

Context {key : Type} `{PRNG key}.




Lemma repeat_inj (b : bool) i j : repeat b i = repeat b j -> i = j.
Proof.
  intros E. apply (f_equal (@length bool)) in E.
  now rewrite !repeat_length in E.
Qed.

Lemma fresh_keys_distinct (k : key) : split_fresh k ->
  forall i j,
    (i <> j -> carried_key k i <> carried_key k j) /\
    (i <> j -> draw_key k i <> draw_key k j) /\
    draw_key k i <> carried_key k j.
Proof.
  intros Hf i j. unfold carried_key, draw_key. repeat split.
  - intros Hij E. apply Hf, repeat_inj in E. contradiction.
  - intros Hij E. apply Hf, app_inj_tail in E as [E _].
    apply repeat_inj in E. contradiction.
  - intros E. apply Hf in E.
    assert (Hin : In false (repeat true j))
      by (rewrite <- E; apply in_or_app; right; left; reflexivity).
    apply repeat_spec in Hin. discriminate.
Qed.




Lemma injective_NoDup {A} (f : nat -> A) n : forall a,
  (forall i j, (a <= i < j)%nat -> (j < a + n)%nat -> f i <> f j) ->
  NoDup (map f (seq a n)).
Proof.
  induction n as [|n IH]; intros a Hinj; [constructor|].
  cbn [seq map]. constructor.
  - intros Hin. apply in_map_iff in Hin as (j & Ej & Hj).
    apply in_seq in Hj. apply (Hinj a j); [lia | lia | now symmetry].
  - apply IH. intros i j Hij Hj. apply Hinj; lia.
Qed.

(** A generator with finitely many keys cannot hand a fresh token to every
    step: within as many steps as there are keys, some token returns. *)
Lemma finite_keys_repeat (enum : list key) (k0 : key) :
  (forall k, In k enum) ->
  exists i j, (i < j <= length enum)%nat /\
              carried_key k0 i = carried_key k0 j.
Proof.
  intros Hall.
  destruct (classic (exists i j, (i < j <= length enum)%nat /\
                       carried_key k0 i = carried_key k0 j)) as [Hex|Hno];
    [exact Hex | exfalso].
  assert (Hnd : NoDup (map (carried_key k0) (seq 0 (S (length enum))))).
  { apply injective_NoDup. intros i j Hij Hj E.
    apply Hno. exists i, j. split; [lia | exact E]. }
  apply NoDup_incl_length with (l' := enum) in Hnd.
  - rewrite length_map, length_seq in Hnd. lia.
  - intros k _. apply Hall.
Qed.

End Keys.

(** The splitting tree over [positive] is an ideal generator. *)
Lemma tree_derive_inj p : forall q (k1 k2 : positive),
  length p = length q -> derive k1 p = derive k2 q -> k1 = k2 /\ p = q.
Proof.
  induction p as [|b p IH]; intros [|c q] k1 k2 L E; try discriminate.
  - auto.
  - injection L as L. simpl in E.
    apply IH in E as [E ->]; [|assumption].
    destruct b, c; simpl in E; try discriminate; injection E as ->; auto.
Qed.

Lemma tree_derive_size p : forall k : positive,
  Pos.size_nat (derive k p) = (Pos.size_nat k + length p)%nat.
Proof.
  induction p as [|b p IH]; intros k; simpl.
  - lia.
  - rewrite IH. destruct b; simpl; lia.
Qed.

Lemma tree_split_fresh (k : positive) : split_fresh k.
Proof.
  intros p q E.
  assert (L : length p = length q).
  { apply (f_equal Pos.size_nat) in E. rewrite !tree_derive_size in E. lia. }
  now destruct (tree_derive_inj p q k k L E).
Qed.

(** ** The forward states under the default coefficients *)

Section DefaultForward.

Context {key : Type} `{PRNG key}.

Lemma FBSDEStep_call_default d s i t0 dt x y z (k : key) :
  step_shaped d s -> has_default_coeffs s ->
  length x = d -> length z = d ->
  exists yt y1 z1,
    FBSDEStep_call s (i, t0, dt, x, [y], z, k) =
      Some ((i + 1, t0, dt, default_x_next d x dt k, [y1], z1,
             snd (split k))%Z,
            (default_x_next d x dt k, [yt], [y1])) /\
    length (default_x_next d x dt k) = d /\ length z1 = d.
Proof.
  intros Hs Hd Hx Hz.
  destruct (FBSDEStep_call_shaped d s i t0 dt x y z k Hs Hx Hz)
    as (x1 & yt & y1 & z1 & E & Lx1 & Lz1).
  destruct Hs as (Hu & Hc & Hn).
  destruct (Hc [t0 + IZR i * dt] x [y] z) as (_ & _ & (p & Ep & Lp)); auto.
  destruct p as [|p [|? ?]]; try discriminate.
  destruct Hd as (Emu & Esg & _).
  pose proof E as E2.
  rewrite (FBSDEStep_call_closed s i t0 dt x y z k
             (zeros_like x) (scale_l (4 / 10) x) p) in E2.
  - rewrite Hn in E2. fold (default_x_next d x dt k) in E2.
    destruct (FNN_call (unet s) _ (default_x_next d x dt k))
      as [[y1' z1']|]; [|discriminate].
    apply (f_equal (fun r : option (Carry * Output) =>
             match r with Some (_, (x', _, _)) => x' | None => [] end)) in E2.
    simpl in E2. subst x1.
    exists yt, y1, z1. auto.
  - unfold zeros_like. now rewrite zeros_length.
  - now rewrite scale_l_length.
  - congruence.
  - congruence.
  - now rewrite Emu.
  - now rewrite Esg.
  - exact Ep.
Qed.

Lemma last_cons {A} (a : A) l d1 : last (a :: l) d1 = last l a.
Proof.
  revert a d1. induction l as [|b l IH]; intros a d1; [reflexivity|].
  change (last (a :: b :: l) d1) with (last (b :: l) d1).
  now rewrite (IH b d1), (IH b a).
Qed.

Lemma scan_loop_default d s n : step_shaped d s -> has_default_coeffs s ->
  forall c : Carry, carry_shaped d c ->
  exists cf os, scan_loop (FBSDEStep_call s) c n = Some (cf, os) /\
    map (fun o => fst (fst o)) os =
      default_x_path d (carry_x c) (carry_dt c) (carry_key c) n /\
    carry_x cf =
      last (default_x_path d (carry_x c) (carry_dt c) (carry_key c) n)
           (carry_x c).
Proof.
  intros Hs Hd. induction n as [|n IH]; intros c Hc.
  - exists c, []. simpl. auto.
  - destruct c as [[[[[[i t0] dt] x] y] z] k].
    destruct Hc as (Hx & Hy & Hz). simpl in Hx, Hy, Hz.
    destruct y as [|y [|? ?]]; try discriminate.
    destruct (FBSDEStep_call_default d s i t0 dt x y z k Hs Hd Hx Hz)
      as (yt & y1 & z1 & E & Lx1 & Lz1).
    destruct (IH (i + 1, t0, dt, default_x_next d x dt k, [y1], z1,
                  snd (split k))%Z)
      as (cf & os & E' & Hxs & Hcf).
    { repeat split; assumption. }
    exists cf, ((default_x_next d x dt k, [yt], [y1]) :: os).
    cbn [scan_loop]. erewrite bind_Some by exact E. cbv beta iota.
    rewrite E'. simpl in Hxs, Hcf |- *.
    split; [reflexivity|]. split; [now rewrite Hxs|].
    rewrite Hcf. symmetry. apply last_cons.
Qed.

End DefaultForward.

(** ** The loss *)

Lemma sum_square_error_same a b :
  length a = length b -> sum_square_error a b = Some (sq_err a b).
Proof.
  intros E. unfold sum_square_error, sub.
  now rewrite (broadcast_same Rminus a b E).
Qed.

Lemma over_axis_map {A B} (f : A -> A -> option R) (g : B -> R)
    (pa pb : B -> A) (l : list B) :
  Forall (fun r => f (pa r) (pb r) = Some (g r)) l ->
  over_axis f (map pa l) (map pb l) = Some (fold_right Rplus 0 (map g l)).
Proof.
  induction 1 as [|r l Hr _ IH]; simpl; [reflexivity|].
  now rewrite Hr, IH.
Qed.

Lemma fold_plus3 {B} (f g h : B -> R) (l : list B) :
  0 + fold_right Rplus 0 (map f l) + fold_right Rplus 0 (map g l)
    + fold_right Rplus 0 (map h l)
  = fold_right Rplus 0 (map (fun r => f r + g r + h r) l).
Proof. induction l as [|r l IH]; simpl; [lra|]. rewrite <- IH. lra. Qed.

Section LossProperties.

Context {key : Type} `{PRNG key}.

Lemma member_shaped_loss d (r : @Carry key * Stacked) :
  member_shaped d r ->
  sum_square_error2 (snd (fst (snd r))) (snd (snd r)) =
    Some (fold_right Rplus 0
            (map (fun p => sq_err (fst p) (snd p))
                 (combine (snd (fst (snd r))) (snd (snd r))))) /\
  sum_square_error (carry_y (fst r)) (g_fn (carry_x (fst r))) =
    Some (sq_err (carry_y (fst r)) (g_fn (carry_x (fst r)))) /\
  sum_square_error (carry_z (fst r)) (dg_fn (carry_x (fst r))) =
    Some (sq_err (carry_z (fst r)) (map (fun x => 2 * x) (carry_x (fst r)))).
Proof.
  intros (cf & os & -> & (Hx & Hy & Hz) & Hos). simpl. repeat split.
  - unfold sum_square_error2.
    rewrite (over_axis_map sum_square_error
               (fun o : Output => sq_err (snd (fst o)) (snd o))).
    + f_equal. f_equal. clear. induction os as [|o os IH]; simpl; congruence.
    + eapply Forall_impl; [|exact Hos].
      intros o (_ & Ht & Ho). apply sum_square_error_same. congruence.
  - apply sum_square_error_same. now rewrite g_fn_length.
  - rewrite dg_fn_eq. apply sum_square_error_same.
    rewrite length_map. congruence.
Qed.

Lemma vmap_model_shaped d m x0 t0 dt n unroll (k : key) :
  step_shaped d (step m) -> Forall (fun x => length x = d) x0 ->
  exists out, vmap_model m x0 t0 dt n unroll k = Some out /\
    Forall (member_shaped d) out /\ length out = length x0.
Proof.
  intros Hs. unfold vmap_model. induction 1 as [|x l Hx _ IH].
  - exists []. simpl. auto.
  - destruct IH as (out & E & Hout & L).
    destruct (NeuralFBSDE_call_shaped d m x t0 dt n unroll k Hs Hx)
      as (y0 & z0 & cf & os & _ & _ & Ecall & Hcf & Hos).
    exists ((cf, stack os) :: out). simpl. rewrite Ecall. simpl.
    rewrite E. simpl. repeat split; auto.
    constructor; [|assumption]. exists cf, os. auto.
Qed.

Lemma loss_fn_shaped d m x0 t0 dt n unroll (k : key) out :
  vmap_model m x0 t0 dt n unroll k = Some out ->
  Forall (member_shaped d) out ->
  loss_fn x0 t0 dt n unroll k m =
    Some (spec_loss out, map (fun r => snd (snd r)) out).
Proof.
  intros E Hout. unfold loss_fn. rewrite E. simpl bind.
  unfold sum_square_error3, sum_square_error2 at 2 3.
  rewrite !map_map.
  rewrite (over_axis_map sum_square_error2
    (fun r : @Carry key * Stacked => fold_right Rplus 0
       (map (fun p => sq_err (fst p) (snd p))
            (combine (snd (fst (snd r))) (snd (snd r)))))).
  2:{ eapply Forall_impl; [|exact Hout].
      intros r Hr. now apply (member_shaped_loss d). }
  simpl bind.
  rewrite (over_axis_map sum_square_error
    (fun r : @Carry key * Stacked =>
       sq_err (carry_y (fst r)) (g_fn (carry_x (fst r))))).
  2:{ eapply Forall_impl; [|exact Hout].
      intros r Hr. now apply (member_shaped_loss d). }
  simpl bind.
  rewrite (over_axis_map sum_square_error
    (fun r : @Carry key * Stacked =>
       sq_err (carry_z (fst r)) (map (fun x => 2 * x) (carry_x (fst r))))).
  2:{ eapply Forall_impl; [|exact Hout].
      intros r Hr. now apply (member_shaped_loss d). }
  simpl bind. rewrite fold_plus3. unfold spec_loss.
  f_equal. f_equal. f_equal. apply map_ext.
  intros [c [[xs yt] ys]]. reflexivity.
Qed.

End LossProperties.

(** * The claims *)

Section Claims.

Context {key : Type} `{PRNG key}.

(** C1.  One call of [FBSDEStep.__call__] on operands of one shape returns
    the forward state [X' = X + mu(curr_t, X, Y, Z) * dt + sigma(curr_t, X,
    Y) (.) dW] and the tilde value [Y_tilde = Y + phi(curr_t, X, Y, Z) * dt +
    Z . (sigma(curr_t, X, Y) (.) dW)], where [curr_t = t0 + i * dt] and the
    oracle is queried at [next_t = t0 + (i + 1) * dt], both computed from
    [i]; [X'] and [Y_tilde] are the same whatever network the step holds. *)
Theorem step_euler_maruyama self i t0 dt x y z (k : key) m s p :
  let curr_t := t0 + IZR i * dt in
  let next_t := t0 + IZR (i + 1) * dt in
  let dW := increment (noise_size self) dt k in
  let x1 := vadd (vadd x (scale_r m dt)) (hadamard s dW) in
  let y_tilde := y + p * dt + dot z (hadamard s dW) in
  length m = length x -> length s = length x ->
  noise_size self = length x -> length z = length x ->
  mu_fn self [curr_t] x [y] z = Some m ->
  sigma_fn self [curr_t] x [y] = Some s ->
  phi_fn self [curr_t] x [y] z = Some [p] ->
  FBSDEStep_call self (i, t0, dt, x, [y], z, k) =
    ('(y1, z1) <- FNN_call (unet self) [next_t] x1 ;;
     Some ((i + 1, t0, dt, x1, y1, z1, snd (split k))%Z,
           (x1, [y_tilde], y1))) /\
  forall u,
    FBSDEStep_call (with_unet self u) (i, t0, dt, x, [y], z, k) =
      ('(y1, z1) <- FNN_call u [next_t] x1 ;;
       Some ((i + 1, t0, dt, x1, y1, z1, snd (split k))%Z,
             (x1, [y_tilde], y1))).
Proof.
  intros curr_t next_t dW x1 y_tilde Hm Hs Hn Hz Emu Esg Ephi. split.
  - now apply FBSDEStep_call_closed.
  - intros u.
    now apply (FBSDEStep_call_closed (with_unet self u) i t0 dt x y z k m s p).
Qed.

(** C6.  Each transition increases [step_index] by exactly 1 and leaves
    [t0] and [dt] unchanged; in a valid configuration the fold of
    [num_timesteps] transitions from the initial state built from
    [(t0, x0)] returns, with [step_index = num_timesteps], the [t0] and [dt]
    it was given, and one output per step. *)
Theorem step_index_counts d m x0 t0 dt n unroll (k : key) :
  step_shaped d (step m) -> length x0 = d ->
  (forall c c' o, FBSDEStep_call (step m) c = Some (c', o) ->
     carry_i c' = (carry_i c + 1)%Z /\ carry_t0 c' = carry_t0 c /\
     carry_dt c' = carry_dt c) /\
  exists cf xs y_tilde ys,
    NeuralFBSDE_call m x0 t0 dt n unroll k = Some (cf, (xs, y_tilde, ys)) /\
    carry_i cf = Z.of_nat n /\ carry_t0 cf = t0 /\ carry_dt cf = dt /\
    length xs = n /\ length y_tilde = n /\ length ys = n.
Proof.
  intros Hs Hx. split.
  - intros c c' o E. apply FBSDEStep_call_inv in E. tauto.
  - destruct (NeuralFBSDE_call_shaped d m x0 t0 dt n unroll k Hs Hx)
      as (y0 & z0 & cf & os & _ & Escan & Ecall & _).
    apply scan_loop_inv in Escan as (Ei & Et & Ed & _ & El).
    exists cf, (map (fun o => fst (fst o)) os),
      (map (fun o => snd (fst o)) os), (map snd os).
    rewrite !length_map. simpl in Ei, Et, Ed. auto 10.
Qed.

(** C8.  If [sigma] returns the zero vector for every input, then for
    every increment [dW] the step returns [Y_tilde = Y + phi(curr_t, X, Y,
    Z) * dt], the noise-free Euler update, which does not mention [dW];
    this holds for the body under any increment and, for a time step
    [0 <= dt] (where the scaling [sqrt dt] of the draw is a number), for
    the step with the increment it draws. *)
Theorem zero_diffusion self i t0 dt x y z m p :
  let curr_t := t0 + IZR i * dt in
  let next_t := t0 + IZR (i + 1) * dt in
  let x1 := vadd x (scale_r m dt) in
  (forall t X Y, sigma_fn self t X Y = Some (zeros_like X)) ->
  length m = length x -> length z = length x ->
  mu_fn self [curr_t] x [y] z = Some m ->
  phi_fn self [curr_t] x [y] z = Some [p] ->
  (forall dW (k2 : key), length dW = length x ->
     step_body self i t0 dt x [y] z dW k2 =
       ('(y1, z1) <- FNN_call (unet self) [next_t] x1 ;;
        Some ((i + 1, t0, dt, x1, y1, z1, k2)%Z, (x1, [y + p * dt], y1)))) /\
  (forall k : key, 0 <= dt -> noise_size self = length x ->
     FBSDEStep_call self (i, t0, dt, x, [y], z, k) =
       ('(y1, z1) <- FNN_call (unet self) [next_t] x1 ;;
        Some ((i + 1, t0, dt, x1, y1, z1, snd (split k))%Z,
              (x1, [y + p * dt], y1)))).
Proof.
  intros curr_t next_t x1 Hsg Hm Hz Emu Ephi.
  assert (Hbody : forall dW (k2 : key), length dW = length x ->
     step_body self i t0 dt x [y] z dW k2 =
       ('(y1, z1) <- FNN_call (unet self) [next_t] x1 ;;
        Some ((i + 1, t0, dt, x1, y1, z1, k2)%Z, (x1, [y + p * dt], y1)))).
  { intros dW k2 HdW.
    rewrite (step_body_closed self i t0 dt x y z dW k2 m (zeros_like x) p);
      auto.
    2:{ unfold zeros_like. now rewrite zeros_length. }
    unfold zeros_like. rewrite dot_hadamard_zeros.
    assert (L : length (vadd x (scale_r m dt)) = length x).
    { unfold vadd. rewrite zip_with_length; rewrite ?scale_r_length; congruence. }
    rewrite (vadd_hadamard_zeros _ (length x) dW L HdW).
    fold x1. now rewrite Rplus_0_r. }
  split; [exact Hbody|].
  intros k _ Hn. rewrite FBSDEStep_call_body. apply Hbody.
  now rewrite increment_length.
Qed.

(** C9.  For every real vector [X], [g_fn X] is the one-element vector
    holding the sum of the squares of the entries of [X], and
    [dg_fn X = 2 * X]. *)
Theorem terminal_anchor (X : array) :
  g_fn X = [fold_right Rplus 0 (map (fun x => x * x) X)] /\
  dg_fn X = map (fun x => 2 * x) X.
Proof.
  split; [|apply dg_fn_eq].
  unfold g_fn, sum_keepdims, sum, pow2. f_equal. f_equal.
  apply map_ext. intros x. lra.
Qed.


(** C10.  Under the coefficients [FBSDEStep.__init__] installs ([mu] zero,
    [sigma(t, X, Y) = 0.4 * X]) the forward states returned by
    [NeuralFBSDE.__call__] do not depend on the network: two models of any
    weights, run from the same [x0], [t0], [dt], [num_timesteps] and key,
    return the same sequence of [X] and the same final [X]; only the [Y],
    [Z] and [Y_tilde] parts may differ. *)
Theorem forward_states_ignore_weights d m1 m2 x0 t0 dt n unroll (k : key) :
  step_shaped d (step m1) -> step_shaped d (step m2) ->
  has_default_coeffs (step m1) -> has_default_coeffs (step m2) ->
  length x0 = d ->
  exists cf1 cf2 yt1 ys1 yt2 ys2,
    let xs := default_x_path d x0 dt k n in
    NeuralFBSDE_call m1 x0 t0 dt n unroll k = Some (cf1, (xs, yt1, ys1)) /\
    NeuralFBSDE_call m2 x0 t0 dt n unroll k = Some (cf2, (xs, yt2, ys2)) /\
    carry_x cf1 = carry_x cf2.
Proof.
  intros Hs1 Hs2 Hd1 Hd2 Hx.
  assert (Hrun : forall m, step_shaped d (step m) ->
            has_default_coeffs (step m) ->
            exists cf yt ys,
              NeuralFBSDE_call m x0 t0 dt n unroll k =
                Some (cf, (default_x_path d x0 dt k n, yt, ys)) /\
              carry_x cf = last (default_x_path d x0 dt k n) x0).
  { intros m Hs Hd.
    destruct (FNN_call_shaped d (unet (step m)) 0 x0 (proj1 Hs) Hx)
      as (y0 & z0 & E0 & Lz0).
    assert (Hc : carry_shaped d (0%Z, t0, dt, x0, [y0], z0, k))
      by (repeat split; assumption).
    destruct (scan_loop_default d (step m) n Hs Hd _ Hc)
      as (cf & os & E & Hxs & Hcf).
    exists cf, (map (fun o => snd (fst o)) os), (map snd os).
    unfold NeuralFBSDE_call, u_and_dudx.
    change (zeros 1) with [0]. erewrite bind_Some by exact E0.
    cbv beta iota. rewrite (lax_scan_shaped d) by assumption.
    erewrite bind_Some by exact E. unfold stack. simpl in Hxs, Hcf.
    rewrite Hxs. auto. }
  destruct (Hrun m1 Hs1 Hd1) as (cf1 & yt1 & ys1 & E1 & X1).
  destruct (Hrun m2 Hs2 Hd2) as (cf2 & yt2 & ys2 & E2 & X2).
  exists cf1, cf2, yt1, ys1, yt2, ys2. simpl.
  repeat split; congruence.
Qed.

(** C2.  In a valid configuration the loss [train_step] returns is the
    sum, with no averaging, over all batch members and all time steps of
    the squared error between [Y_tilde] and [Y'], plus for every member the
    squared error between the final [Y'] and [g(X_final)] and between the
    final [Z'] and the gradient [2 * X_final] of [g]. *)
Theorem training_loss_is_sum (Grads Updates OptState : Type)
    filter_grad optimizer_update apply_updates
    d model x0 t0 dt n (opt_state : OptState) unroll (k : key) :
  step_shaped d (step model) -> Forall (fun x => length x = d) x0 ->
  exists out,
    vmap_model model x0 t0 dt n unroll k = Some out /\
    length out = length x0 /\
    loss_fn x0 t0 dt n unroll k model =
      Some (spec_loss out, map (fun r => snd (snd r)) out) /\
    exists model' opt_state',
      train_step Grads Updates OptState filter_grad optimizer_update
        apply_updates model x0 t0 dt n opt_state unroll k =
      Some (spec_loss out, model', opt_state', map (fun r => snd (snd r)) out).
Proof.
  intros Hs Hx.
  destruct (vmap_model_shaped d model x0 t0 dt n unroll k Hs Hx)
    as (out & E & Hout & L).
  exists out. repeat split; auto.
  - now apply (loss_fn_shaped d).
  - unfold train_step. rewrite (loss_fn_shaped d _ _ _ _ _ _ _ out E Hout).
    simpl bind.
    destruct (optimizer_update _ opt_state) as [updates opt_state'].
    eauto.
Qed.

(** C7, as the code has it.  Trajectory construction checks neither [dt]
    nor [num_timesteps] nor the dimension: a model whose network takes
    [d + 1] inputs and whose noise dimension is [d] returns a trajectory of
    [num_timesteps] steps for every [x0] of length [d], every [dt] of any
    sign, every [num_timesteps] including 0 and every [d] including 0.  A
    state whose length does not fit the network is rejected by the shape
    check of the initial oracle evaluation, before any step. *)
Theorem no_configuration_validation d m :
  step_shaped d (step m) ->
  (forall x0 t0 dt n unroll (k : key), length x0 = d ->
     exists cf xs y_tilde ys,
       NeuralFBSDE_call m x0 t0 dt n unroll k = Some (cf, (xs, y_tilde, ys)) /\
       carry_dt cf = dt /\ length xs = n) /\
  (forall x0 t0 dt n unroll (k : key), length x0 <> d ->
     NeuralFBSDE_call m x0 t0 dt n unroll k = None).
Proof.
  intros Hs. split.
  - intros x0 t0 dt n unroll k Hx.
    destruct (NeuralFBSDE_call_shaped d m x0 t0 dt n unroll k Hs Hx)
      as (y0 & z0 & cf & os & _ & Escan & Ecall & _).
    apply scan_loop_inv in Escan as (_ & _ & Ed & _ & El).
    exists cf, (map (fun o => fst (fst o)) os),
      (map (fun o => snd (fst o)) os), (map snd os).
    rewrite length_map. auto.
  - intros x0 t0 dt n unroll k Hx.
    destruct Hs as ((Hin & _) & _).
    unfold NeuralFBSDE_call, u_and_dudx, FNN_call, MLP_call.
    rewrite Hin. simpl length.
    destruct (Nat.eqb_spec (S (length x0)) (S d)) as [E|_];
      [congruence | reflexivity].
Qed.

End Claims.

Lemma step_euler_maruyama_witness :
  let self := step (demo_model 1) in
  let dW := increment 2 (1 / 5) 1%positive in
  let s := scale_l (4 / 10) demo_x0 in
  let p := 5 / 100 * (3 - (1 * 1 + (1 / 2 * 1 + 0))) in
  let x1 := vadd (vadd demo_x0 (scale_r [0; 0] (1 / 5))) (hadamard s dW) in
  FBSDEStep_call self (0%Z, 0, 1 / 5, demo_x0, [3], [1; 1], 1%positive) =
    ('(y1, z1) <- FNN_call (unet self) [0 + IZR (0 + 1) * (1 / 5)] x1 ;;
     Some (((0 + 1)%Z, 0, 1 / 5, x1, y1, z1, 3%positive),
           (x1, [3 + p * (1 / 5) + dot [1; 1] (hadamard s dW)], y1))).
Proof.
  intros self dW s p x1.
  refine (proj1 (step_euler_maruyama self 0 0 (1 / 5) demo_x0 3 [1; 1]
                   1%positive [0; 0] s p _ _ _ _ _ _ _)); reflexivity.
Defined.

Lemma step_index_counts_witness :
  exists cf xs y_tilde ys,
    NeuralFBSDE_call (demo_model 1) demo_x0 0 (1 / 5) 5 1 1%positive
      = Some (cf, (xs, y_tilde, ys)) /\
    carry_i cf = 5%Z /\ carry_t0 cf = 0 /\ carry_dt cf = 1 / 5 /\
    length xs = 5%nat /\ length y_tilde = 5%nat /\ length ys = 5%nat.
Proof.
  exact (proj2 (step_index_counts 2 (demo_model 1) demo_x0 0 (1 / 5) 5 1
                  1%positive (demo_model_shaped 1) eq_refl)).
Defined.

Lemma zero_diffusion_witness :
  let p := 5 / 100 * (3 - (1 * 1 + (1 / 2 * 1 + 0))) in
  let x1 := vadd demo_x0 (scale_r [0; 0] (1 / 5)) in
  step_body (zero_sigma_step 1) 0 0 (1 / 5) demo_x0 [3] [1; 1] [7; -2]
      3%positive =
    ('(y1, z1) <- FNN_call (unet (zero_sigma_step 1))
                    [0 + IZR (0 + 1) * (1 / 5)] x1 ;;
     Some (((0 + 1)%Z, 0, 1 / 5, x1, y1, z1, 3%positive),
           (x1, [3 + p * (1 / 5)], y1))).
Proof.
  intros p x1.
  refine (proj1 (zero_diffusion (zero_sigma_step 1) 0 0 (1 / 5) demo_x0 3
                   [1; 1] [0; 0] p _ _ _ _ _) [7; -2] 3%positive _);
    reflexivity.
Defined.

Lemma forward_states_ignore_weights_witness :
  exists cf1 cf2 yt1 ys1 yt2 ys2,
    let xs := default_x_path 2 demo_x0 (1 / 5) 1%positive 5 in
    NeuralFBSDE_call (demo_model 1) demo_x0 0 (1 / 5) 5 1 1%positive
      = Some (cf1, (xs, yt1, ys1)) /\
    NeuralFBSDE_call (demo_model 2) demo_x0 0 (1 / 5) 5 1 1%positive
      = Some (cf2, (xs, yt2, ys2)) /\
    carry_x cf1 = carry_x cf2.
Proof.
  apply (forward_states_ignore_weights 2 (demo_model 1) (demo_model 2)).
  - apply demo_model_shaped.
  - apply demo_model_shaped.
  - repeat split.
  - repeat split.
  - reflexivity.
Defined.

Lemma training_loss_is_sum_witness :
  exists out,
    vmap_model (demo_model 1) [demo_x0; demo_x0] 0 (1 / 5) 5 1 1%positive
      = Some out /\
    length out = 2%nat /\
    loss_fn [demo_x0; demo_x0] 0 (1 / 5) 5 1 1%positive (demo_model 1) =
      Some (spec_loss out, map (fun r => snd (snd r)) out) /\
    exists model' opt_state',
      train_step unit unit unit (fun _ _ => tt) (fun _ _ => (tt, tt))
        (fun m _ => m) (demo_model 1) [demo_x0; demo_x0] 0 (1 / 5) 5 tt 1
        1%positive =
      Some (spec_loss out, model', opt_state', map (fun r => snd (snd r)) out).
Proof.
  apply (training_loss_is_sum unit unit unit (fun _ _ => tt)
           (fun _ _ => (tt, tt)) (fun m _ => m) 2 (demo_model 1)).
  - apply demo_model_shaped.
  - repeat constructor.
Defined.

Lemma no_configuration_validation_witness :
  (exists cf xs y_tilde ys,
     NeuralFBSDE_call (demo_model 1) demo_x0 0 (-1) 0 1 1%positive
       = Some (cf, (xs, y_tilde, ys)) /\
     carry_dt cf = -1 /\ length xs = 0%nat) /\
  NeuralFBSDE_call (demo_model 1) [1; 1; 1] 0 (1 / 5) 5 1 1%positive = None.
Proof.
  destruct (no_configuration_validation 2 (demo_model 1)
              (demo_model_shaped 1)) as [Hacc Hrej].
  split.
  - apply Hacc. reflexivity.
  - apply Hrej. discriminate.
Defined.

(** C7, a counterexample.  A negative [dt] together with
    [num_timesteps = 0] is not rejected: the call returns the initial
    carry. *)
Lemma invalid_configuration_accepted :
  -1 <= 0 /\ (0 <= 0)%nat /\
  exists r,
    NeuralFBSDE_call (demo_model 1) demo_x0 0 (-1) 0 1 1%positive = Some r.
Proof.
  split; [lra|]. split; [lia|].
  destruct (NeuralFBSDE_call_shaped 2 (demo_model 1) demo_x0 0 (-1) 0 1
              1%positive (demo_model_shaped 1) eq_refl)
    as (y0 & z0 & cf & os & _ & _ & E & _).
  eauto.
Qed.

(** C3, at the batch of [train].  Both members of the batch
    [[x0, x0]] receive the one key of the training step, draw the same
    increments and return the same trajectory. *)
Lemma batch_members_share_stream :
  exists r,
    NeuralFBSDE_call (demo_model 1) demo_x0 0 (1 / 5) 5 1 1%positive = Some r /\
    vmap_model (demo_model 1) [demo_x0; demo_x0] 0 (1 / 5) 5 1 1%positive
      = Some [r; r].
Proof.
  destruct (NeuralFBSDE_call_shaped 2 (demo_model 1) demo_x0 0 (1 / 5) 5 1
              1%positive (demo_model_shaped 1) eq_refl)
    as (y0 & z0 & cf & os & _ & _ & E & _).
  exists (cf, stack os). split; [exact E|].
  unfold vmap_model. apply mapM_pair; exact E.
Qed.

(** C4, at [t0 = 1].  The initial value is the network's value at time 0,
    not at [t0]: for the network [u(t, x) = t + sum x] the initial carry
    holds [u(0, x0)], which differs from [u(t0, x0)]. *)
Lemma initial_oracle_time_is_zero :
  NeuralFBSDE_call (demo_model 1) demo_x0 1 (1 / 5) 0 1 1%positive =
    Some ((0%Z, 1, 1 / 5, demo_x0, [1 * (0 + (1 + (1 / 2 + 0)))],
           [1 * 1; 1 * 1], 1%positive), ([], [], [])) /\
  u_and_dudx (step (demo_model 1)) [1] demo_x0 =
    Some ([1 * (1 + (1 + (1 / 2 + 0)))], [1 * 1; 1 * 1]) /\
  1 * (0 + (1 + (1 / 2 + 0))) <> 1 * (1 + (1 + (1 / 2 + 0))).
Proof.
  split; [|split; [reflexivity | lra]].
  unfold NeuralFBSDE_call.
  change (u_and_dudx (step (demo_model 1)) (zeros 1) demo_x0)
    with (Some ([1 * (0 + (1 + (1 / 2 + 0)))], [1 * 1; 1 * 1])).
  cbv beta iota delta [bind].
  rewrite (lax_scan_shaped 2).
  - reflexivity.
  - apply demo_model_shaped.
  - repeat split.
Qed.


(** * Further properties of the code *)

(** ** Squared errors *)

Lemma sum_square_nonneg d : 0 <= sum (square d).
Proof.
  induction d as [|x d IH]; simpl; [lra|].
  pose proof (Rle_0_sqr x) as Hx. unfold Rsqr in Hx. lra.
Qed.

Lemma square_zero x : x * x = 0 -> x = 0.
Proof. intros E. now destruct (Rmult_integral _ _ E). Qed.

Lemma sum_square_zero d : sum (square d) = 0 -> Forall (fun x => x = 0) d.
Proof.
  induction d as [|x d IH]; simpl; intros E; constructor.
  - pose proof (sum_square_nonneg d) as Hd.
    pose proof (Rle_0_sqr x) as Hx. unfold Rsqr in Hx.
    apply square_zero. lra.
  - apply IH. pose proof (sum_square_nonneg d) as Hd.
    pose proof (Rle_0_sqr x) as Hx. unfold Rsqr in Hx. lra.
Qed.

Lemma sum_square_cons x d : sum (square (x :: d)) = x * x + sum (square d).
Proof. reflexivity. Qed.

Lemma sum_square_zip_sym a b :
  sum (square (zip_with Rminus a b)) = sum (square (zip_with Rminus b a)).
Proof.
  revert b. induction a as [|x a IH]; intros [|y b]; cbn [zip_with]; auto.
  rewrite !sum_square_cons, IH. lra.
Qed.

Lemma sum_square_map_sym c l :
  sum (square (map (Rminus c) l)) = sum (square (map (fun x => x - c) l)).
Proof.
  induction l as [|x l IH]; cbn [map]; auto.
  rewrite !sum_square_cons, IH. lra.
Qed.



Lemma sum_square_error_nonneg a b e :
  sum_square_error a b = Some e -> 0 <= e.
Proof.
  unfold sum_square_error. intros E. bind_inv_all.
  injection E as <-. apply sum_square_nonneg.
Qed.

(** X1.  [sum_square_error] raises exactly on shapes numpy cannot
    broadcast (different lengths, neither of them 1); it does not depend on
    the order of its arguments, and its value is never negative. *)
Theorem sum_square_error_spec (y y_pred : array) :
  (sum_square_error y y_pred = None <->
     length y <> length y_pred /\ length y <> 1%nat /\
     length y_pred <> 1%nat) /\
  sum_square_error y y_pred = sum_square_error y_pred y /\
  (forall e, sum_square_error y y_pred = Some e -> 0 <= e).
Proof.
  unfold sum_square_error, sub, broadcast. split; [|split].
  - destruct (Nat.eqb_spec (length y) (length y_pred));
      destruct (Nat.eqb_spec (length y) 1);
      destruct (Nat.eqb_spec (length y_pred) 1); simpl;
      split; intros Hyp; try discriminate; try tauto.
  - destruct (Nat.eqb_spec (length y) (length y_pred)) as [E|N].
    + rewrite <- E, Nat.eqb_refl. simpl. now rewrite sum_square_zip_sym.
    + destruct (Nat.eqb_spec (length y_pred) (length y)); [congruence|].
      destruct (Nat.eqb_spec (length y) 1) as [E1|N1].
      * destruct (Nat.eqb_spec (length y_pred) 1); [congruence|].
        simpl. now rewrite sum_square_map_sym.
      * destruct (Nat.eqb_spec (length y_pred) 1); [|reflexivity].
        simpl. now rewrite sum_square_map_sym.
  - intros e E. now apply (sum_square_error_nonneg y y_pred).
Qed.


(** ** The loss of a batch *)

Lemma over_axis_nonneg {A} (f : A -> A -> option R) :
  (forall x y v, f x y = Some v -> 0 <= v) ->
  forall a b e, over_axis f a b = Some e -> 0 <= e.
Proof.
  intros Hf. induction a as [|x a IH]; intros [|y b] e E; try discriminate.
  - injection E as <-. lra.
  - simpl in E. bind_inv_all. injection E as <-.
    specialize (Hf _ _ _ Ea0). specialize (IH _ _ Ea1). lra.
Qed.


Section BatchLoss.

Context {key : Type} `{PRNG key}.





Lemma mapM_repeat {A B} (f : A -> option B) x r b :
  f x = Some r -> mapM f (repeat x b) = Some (repeat r b).
Proof.
  intros E. induction b as [|b IH]; simpl; [reflexivity|].
  now rewrite E, IH.
Qed.

Lemma spec_loss_repeat (r : @Carry key * Stacked) b :
  spec_loss (repeat r b) = INR b * member_loss r.
Proof.
  unfold spec_loss. induction b as [|b IH]; [simpl; lra|].
  rewrite S_INR. cbn [repeat map fold_right]. rewrite IH. lra.
Qed.

(** X3.  Whatever the configuration, a loss that [loss_fn] returns is
    never negative. *)
Theorem loss_fn_nonneg x0 t0 dt n unroll (k : key) model l ys :
  loss_fn x0 t0 dt n unroll k model = Some (l, ys) -> 0 <= l.
Proof.
  unfold loss_fn. intros E. bind_inv_all. injection E as <- _.
  assert (Hsse2 : forall a b v, sum_square_error2 a b = Some v -> 0 <= v).
  { intros u w v. apply over_axis_nonneg. apply sum_square_error_nonneg. }
  apply (over_axis_nonneg _ Hsse2) in Ea0.
  apply Hsse2 in Ea1. apply Hsse2 in Ea2. lra.
Qed.


(** X5.  [vmap] hands the one key to every member, so a batch of [b]
    copies of one initial state, the batch [train] builds, consists of [b]
    copies of one trajectory, and its loss is [b] times the loss of that
    trajectory. *)
Theorem loss_of_broadcast_batch d model x t0 dt n unroll (k : key) b :
  step_shaped d (step model) -> length x = d ->
  exists r,
    NeuralFBSDE_call model x t0 dt n unroll k = Some r /\
    vmap_model model (repeat x b) t0 dt n unroll k = Some (repeat r b) /\
    loss_fn (repeat x b) t0 dt n unroll k model =
      Some (INR b * member_loss r, repeat (snd (snd r)) b).
Proof.
  intros Hs Hx.
  destruct (NeuralFBSDE_call_shaped d model x t0 dt n unroll k Hs Hx)
    as (y0 & z0 & cf & os & _ & _ & E & Hcf & Hos).
  exists (cf, stack os).
  assert (Ev : vmap_model model (repeat x b) t0 dt n unroll k =
               Some (repeat (cf, stack os) b))
    by (unfold vmap_model; now apply mapM_repeat).
  repeat split; auto.
  rewrite (loss_fn_shaped d _ _ _ _ _ _ _ _ Ev).
  - now rewrite spec_loss_repeat, map_repeat.
  - apply Forall_forall. intros r Hr. apply repeat_spec in Hr. subst r.
    exists cf, os. auto.
Qed.

End BatchLoss.

Lemma loss_fn_nonneg_witness :
  exists l ys,
    loss_fn [demo_x0; demo_x0] 0 (1 / 5) 5 1 1%positive (demo_model 1)
      = Some (l, ys) /\ 0 <= l.
Proof.
  destruct (vmap_model_shaped 2 (demo_model 1) [demo_x0; demo_x0] 0 (1 / 5)
              5 1 1%positive (demo_model_shaped 1))
    as (out & E & Hout & _); [repeat constructor|].
  pose proof (loss_fn_shaped 2 _ _ _ _ _ _ _ _ E Hout) as El.
  exists (spec_loss out), (map (fun r => snd (snd r)) out).
  split; [exact El | exact (loss_fn_nonneg _ _ _ _ _ _ _ _ _ El)].
Defined.


Lemma loss_of_broadcast_batch_witness :
  exists r,
    NeuralFBSDE_call (demo_model 1) demo_x0 0 (1 / 5) 5 1 1%positive = Some r /\
    vmap_model (demo_model 1) (repeat demo_x0 4) 0 (1 / 5) 5 1 1%positive
      = Some (repeat r 4) /\
    loss_fn (repeat demo_x0 4) 0 (1 / 5) 5 1 1%positive (demo_model 1) =
      Some (INR 4 * member_loss r, repeat (snd (snd r)) 4).
Proof.
  apply (loss_of_broadcast_batch 2 (demo_model 1) demo_x0).
  - apply demo_model_shaped.
  - reflexivity.
Defined.

(** ** The terminal condition *)

(** X7.  [dg_fn] is the gradient of [g_fn]: entry [j] of [dg_fn X] is the
    derivative of [g_fn] at [X] in the [j]-th coordinate. *)
Theorem dg_fn_gradient (X : array) (j : nat) :
  (j < length X)%nat ->
  derivable_pt_lim (fun t => hd 0 (g_fn (set_entry j t X)))
    (nth j X 0) (nth j (dg_fn X) 0).
Proof.
  intros Hj. rewrite dg_fn_eq.
  replace (nth j (map (fun x => 2 * x) X) 0) with (2 * nth j X 0).
  - now apply g_fn_partial.
  - replace 0 with (2 * 0) at 2 by lra.
    now rewrite (map_nth (fun x => 2 * x)).
Qed.

Lemma dg_fn_gradient_witness :
  derivable_pt_lim (fun t => hd 0 (g_fn (set_entry 1 t [3; 4])))
    (nth 1 [3; 4] 0) (nth 1 (dg_fn [3; 4]) 0).
Proof. apply dg_fn_gradient. simpl. lia. Defined.

(** ** Trajectories *)

Lemma firstn_exact {A} (a b : list A) n :
  length a = n -> firstn n (a ++ b) = a.
Proof.
  intros <-. induction a as [|x a IH]; simpl; [|now rewrite IH].
  now destruct b.
Qed.

Lemma skipn_exact {A} (a b : list A) n :
  length a = n -> skipn n (a ++ b) = b.
Proof. intros <-. induction a as [|x a IH]; simpl; auto. Qed.

Lemma scan_loop_app {key : Type} (f : @Carry key -> option (Carry * Output))
    n m : forall c,
  scan_loop f c (n + m) =
    ('(c1, o1) <- scan_loop f c n ;;
     '(c2, o2) <- scan_loop f c1 m ;;
     Some (c2, o1 ++ o2)).
Proof.
  induction n as [|n IH]; intros c.
  - simpl. destruct (scan_loop f c m) as [[c2 o2]|]; reflexivity.
  - cbn [Nat.add scan_loop]. destruct (f c) as [[c1 o]|]; [|reflexivity].
    simpl bind. rewrite IH.
    destruct (scan_loop f c1 n) as [[c1' o1]|]; [|reflexivity].
    simpl bind.
    destruct (scan_loop f c1' m) as [[c2 o2]|]; reflexivity.
Qed.

Section Trajectories.

Context {key : Type} `{PRNG key}.

Lemma FBSDEStep_call_oracle self (c c' : Carry) o :
  FBSDEStep_call self c = Some (c', o) ->
  FNN_call (unet self)
    [carry_t0 c + IZR (carry_i c + 1) * carry_dt c] (carry_x c')
    = Some (carry_y c', carry_z c') /\
  fst (fst o) = carry_x c' /\ snd o = carry_y c'.
Proof.
  destruct c as [[[[[[i t0] dt] x] y] z] k].
  rewrite FBSDEStep_call_body. unfold step_body. intros E.
  bind_inv_all. injection E as <- <-. simpl. auto.
Qed.

Lemma scan_loop_last self n : forall (c cf : Carry) os,
  scan_loop (FBSDEStep_call self) c (S n) = Some (cf, os) ->
  FNN_call (unet self)
    [carry_t0 c + IZR (carry_i c + Z.of_nat (S n)) * carry_dt c] (carry_x cf)
    = Some (carry_y cf, carry_z cf) /\
  last (map (fun o => fst (fst o)) os) [] = carry_x cf /\
  last (map snd os) [] = carry_y cf.
Proof.
  induction n as [|n IH]; intros c cf os E.
  - cbn [scan_loop] in E. bind_inv_all. injection E as <- <-.
    injection Ea0 as E1 E2. subst c1 l.
    apply FBSDEStep_call_oracle in Ea as (Eo & Ex & Ey).
    simpl. auto.
  - remember (S n) as n1. cbn [scan_loop] in E. bind_inv_all.
    injection E as <- <-. subst n1.
    pose proof Ea as Estep. apply FBSDEStep_call_inv in Estep
      as (Ei & Et & Ed & _).
    pose proof Ea0 as Elen. apply scan_loop_inv in Elen as (_ & _ & _ & _ & El).
    apply IH in Ea0 as (Eo & Ex & Ey).
    rewrite Ei, Et, Ed in Eo.
    replace (carry_i c + 1 + Z.of_nat (S n))%Z
      with (carry_i c + Z.of_nat (S (S n)))%Z in Eo by lia.
    split; [exact Eo|].
    destruct l as [|o' l]; [discriminate|].
    split; [exact Ex | exact Ey].
Qed.

(** X8.  A run of [n + extra] steps is the run of [n] steps continued for
    [extra] steps from the carry it reached: its first [n] outputs are the
    outputs of the shorter run. *)
Theorem trajectory_prefix m x0 t0 dt n extra unroll (k : key)
    cf' xs' yt' ys' :
  NeuralFBSDE_call m x0 t0 dt (n + extra) unroll k
    = Some (cf', (xs', yt', ys')) ->
  exists cf os,
    NeuralFBSDE_call m x0 t0 dt n unroll k
      = Some (cf, (firstn n xs', firstn n yt', firstn n ys')) /\
    scan_loop (FBSDEStep_call (step m)) cf extra = Some (cf', os) /\
    stack os = (skipn n xs', skipn n yt', skipn n ys').
Proof.
  unfold NeuralFBSDE_call. intros E.
  destruct (u_and_dudx (step m) (zeros 1) x0) as [[y0 z0]|]; [|discriminate].
  simpl bind in *. unfold lax_scan in *.
  destruct (FBSDEStep_call (step m) (0%Z, t0, dt, x0, y0, z0, k))
    as [[c1 o1]|]; [|discriminate].
  simpl bind in *.
  destruct (carry_same_shape _ c1); [|discriminate].
  rewrite scan_loop_app in E.
  destruct (scan_loop _ _ n) as [[cn on]|] eqn:En; [|discriminate].
  simpl bind in E.
  destruct (scan_loop _ cn extra) as [[ce oe]|] eqn:Ee; [|discriminate].
  simpl in E. injection E as <- <- <- <-.
  apply scan_loop_inv in En as (_ & _ & _ & _ & El).
  exists cn, oe. simpl. unfold stack.
  rewrite !map_app, !firstn_exact, !skipn_exact by (now rewrite length_map).
  auto.
Qed.

End Trajectories.

Lemma trajectory_prefix_witness :
  exists cf' xs' yt' ys' cf os,
    NeuralFBSDE_call (demo_model 1) demo_x0 0 (1 / 5) (2 + 3) 1 1%positive
      = Some (cf', (xs', yt', ys')) /\
    NeuralFBSDE_call (demo_model 1) demo_x0 0 (1 / 5) 2 1 1%positive
      = Some (cf, (firstn 2 xs', firstn 2 yt', firstn 2 ys')) /\
    scan_loop (FBSDEStep_call (step (demo_model 1))) cf 3 = Some (cf', os) /\
    stack os = (skipn 2 xs', skipn 2 yt', skipn 2 ys').
Proof.
  destruct (NeuralFBSDE_call_shaped 2 (demo_model 1) demo_x0 0 (1 / 5) (2 + 3)
              1 1%positive (demo_model_shaped 1) eq_refl)
    as (y0 & z0 & cf' & os' & _ & _ & E & _).
  destruct (trajectory_prefix (demo_model 1) demo_x0 0 (1 / 5) 2 3 1
              1%positive cf' _ _ _ E) as (cf & os & E2 & E3 & E4).
  exists cf', (map (fun o => fst (fst o)) os'),
    (map (fun o => snd (fst o)) os'), (map snd os'), cf, os.
  auto.
Defined.

Section TrajectoryInvariants.

Context {key : Type} `{PRNG key}.

(** X9.  After at least one step the final carry repeats the last output
    and is coherent with the oracle: its [X] and [Y] are the last [X'] and
    [Y'] of the output sequence, and its [(Y, Z)] is the oracle's answer at
    the final time [t0 + num_timesteps * dt] and the final [X]. *)
Theorem final_carry_coherent m x0 t0 dt n unroll (k : key) cf xs yt ys :
  NeuralFBSDE_call m x0 t0 dt (S n) unroll k = Some (cf, (xs, yt, ys)) ->
  last xs [] = carry_x cf /\ last ys [] = carry_y cf /\
  u_and_dudx (step m) [t0 + IZR (Z.of_nat (S n)) * dt] (carry_x cf)
    = Some (carry_y cf, carry_z cf).
Proof.
  unfold NeuralFBSDE_call. intros E.
  destruct (u_and_dudx (step m) (zeros 1) x0) as [[y0 z0]|]; [|discriminate].
  cbn [bind] in *. unfold lax_scan in *.
  destruct (FBSDEStep_call (step m) (0%Z, t0, dt, x0, y0, z0, k))
    as [[c1 o1]|]; [|discriminate].
  cbn [bind] in *.
  destruct (carry_same_shape _ c1); [|discriminate].
  destruct (scan_loop _ _ (S n)) as [[c os]|] eqn:En; [|discriminate].
  simpl in E. injection E as <- <- <- <-.
  apply scan_loop_last in En as (Eo & Ex & Ey). simpl in Eo.
  unfold u_and_dudx. auto.
Qed.

(** X10.  In a valid configuration of dimension [d] the shapes never
    change along the trajectory: every [X'] has length [d], every [Y_tilde]
    and every [Y'] has length 1, and the final carry holds an [X] and a [Z]
    of length [d] and a [Y] of length 1. *)
Theorem trajectory_shapes d m x0 t0 dt n unroll (k : key) :
  step_shaped d (step m) -> length x0 = d ->
  exists cf xs yt ys,
    NeuralFBSDE_call m x0 t0 dt n unroll k = Some (cf, (xs, yt, ys)) /\
    length (carry_x cf) = d /\ length (carry_y cf) = 1%nat /\
    length (carry_z cf) = d /\
    Forall (fun x => length x = d) xs /\
    Forall (fun y => length y = 1%nat) yt /\
    Forall (fun y => length y = 1%nat) ys.
Proof.
  intros Hs Hx.
  destruct (NeuralFBSDE_call_shaped d m x0 t0 dt n unroll k Hs Hx)
    as (y0 & z0 & cf & os & _ & _ & E & (Hcx & Hcy & Hcz) & Hos).
  exists cf, (map (fun o => fst (fst o)) os),
    (map (fun o => snd (fst o)) os), (map snd os).
  split; [exact E|]. repeat split; auto;
    apply Forall_map; (eapply Forall_impl; [|exact Hos]);
    intros o (Ho1 & Ho2 & Ho3); assumption.
Qed.

(** X11.  A noise dimension that numpy cannot broadcast against the state
    dimension (different from it, neither of them 1) is rejected: the very
    first product [sigma * dW] raises, whatever [num_timesteps] is. *)
Theorem incompatible_noise_rejected d m x0 t0 dt n unroll (k : key) :
  oracle_shaped d (unet (step m)) -> coeffs_shaped d (step m) ->
  length x0 = d ->
  noise_size (step m) <> d -> noise_size (step m) <> 1%nat -> d <> 1%nat ->
  NeuralFBSDE_call m x0 t0 dt n unroll k = None.
Proof.
  intros Hu Hc Hx Hn Hn1 Hd1.
  destruct (FNN_call_shaped d (unet (step m)) 0 x0 Hu Hx)
    as (y0 & z0 & E0 & Lz0).
  unfold NeuralFBSDE_call, u_and_dudx. change (zeros 1) with [0].
  erewrite bind_Some by exact E0. cbv beta iota.
  unfold lax_scan. rewrite FBSDEStep_call_body. unfold step_body.
  destruct (Hc [t0 + IZR 0 * dt] x0 [y0] z0)
    as ((mu & Em & Lm) & (g & Eg & Lg) & _); auto.
  rewrite Em. simpl bind. unfold add at 1.
  rewrite broadcast_same by (rewrite scale_r_length; congruence).
  simpl bind. rewrite Eg. simpl bind.
  unfold mul at 1, broadcast. rewrite increment_length, Lg.
  destruct (Nat.eqb_spec d (noise_size (step m))); [congruence|].
  destruct (Nat.eqb_spec d 1); [congruence|].
  destruct (Nat.eqb_spec (noise_size (step m)) 1); [congruence|].
  reflexivity.
Qed.

End TrajectoryInvariants.

Lemma final_carry_coherent_witness :
  exists cf xs yt ys,
    NeuralFBSDE_call (demo_model 1) demo_x0 0 (1 / 5) 5 1 1%positive
      = Some (cf, (xs, yt, ys)) /\
    last xs [] = carry_x cf /\ last ys [] = carry_y cf /\
    u_and_dudx (step (demo_model 1)) [0 + IZR (Z.of_nat 5) * (1 / 5)]
      (carry_x cf) = Some (carry_y cf, carry_z cf).
Proof.
  destruct (NeuralFBSDE_call_shaped 2 (demo_model 1) demo_x0 0 (1 / 5) 5
              1 1%positive (demo_model_shaped 1) eq_refl)
    as (y0 & z0 & cf & os & _ & _ & E & _).
  exists cf, (map (fun o => fst (fst o)) os),
    (map (fun o => snd (fst o)) os), (map snd os).
  split; [exact E|].
  exact (final_carry_coherent (demo_model 1) demo_x0 0 (1 / 5) 4 1
           1%positive cf _ _ _ E).
Defined.

Lemma trajectory_shapes_witness :
  exists cf xs yt ys,
    NeuralFBSDE_call (demo_model 1) demo_x0 0 (1 / 5) 5 1 1%positive
      = Some (cf, (xs, yt, ys)) /\
    length (carry_x cf) = 2%nat /\ length (carry_y cf) = 1%nat /\
    length (carry_z cf) = 2%nat /\
    Forall (fun x => length x = 2%nat) xs /\
    Forall (fun y => length y = 1%nat) yt /\
    Forall (fun y => length y = 1%nat) ys.
Proof.
  apply (trajectory_shapes 2 (demo_model 1)).
  - apply demo_model_shaped.
  - reflexivity.
Defined.

Lemma incompatible_noise_rejected_witness :
  NeuralFBSDE_call (NeuralFBSDE_init linear_MLP 3 1 16 4 3 1%positive)
    demo_x0 0 (1 / 5) 0 1 1%positive = None.
Proof.
  apply (incompatible_noise_rejected 2).
  - split; [reflexivity|]. intros v Hv. simpl. rewrite length_map. auto.
  - apply default_coeffs_shaped. repeat split.
  - reflexivity.
  - simpl. lia.
  - simpl. lia.
  - lia.
Defined.

(** ** A zero time step *)

Lemma frozen_entries c x ws :
  length ws = length x ->
  vadd (vadd x (scale_r (zeros_like x) 0))
       (hadamard (scale_l c x) (scale_r ws 0)) = x.
Proof.
  unfold vadd, hadamard, scale_r, scale_l, zeros_like, zeros.
  revert ws. induction x as [|a x IH]; intros [|w ws] L; try discriminate.
  - reflexivity.
  - injection L as L. cbn [length repeat map zip_with].
    rewrite (IH ws L). f_equal. lra.
Qed.

Section ZeroStep.

Context {key : Type} `{PRNG key}.

Lemma default_x_next_frozen d x (k : key) :
  length x = d -> default_x_next d x 0 k = x.
Proof.
  intros Hx. unfold default_x_next, increment. rewrite sqrt_0.
  apply frozen_entries. now rewrite normal_length.
Qed.

Lemma default_x_path_frozen d x n : forall k : key,
  length x = d -> default_x_path d x 0 k n = repeat x n.
Proof.
  induction n as [|n IH]; intros k Hx; [reflexivity|].
  cbn [default_x_path repeat]. rewrite (default_x_next_frozen d x k Hx).
  now rewrite IH.
Qed.

(** X12.  A time step [dt = 0] is accepted and freezes the forward
    process under the coefficients of [FBSDEStep.__init__]: every [X'] of
    the trajectory, and the final [X], is the initial state [x0]. *)
Theorem zero_dt_freezes_state d m x0 t0 n unroll (k : key) :
  step_shaped d (step m) -> has_default_coeffs (step m) -> length x0 = d ->
  exists cf yt ys,
    NeuralFBSDE_call m x0 t0 0 n unroll k = Some (cf, (repeat x0 n, yt, ys)) /\
    carry_x cf = x0.
Proof.
  intros Hs Hd Hx.
  destruct (FNN_call_shaped d (unet (step m)) 0 x0 (proj1 Hs) Hx)
    as (y0 & z0 & E0 & Lz0).
  assert (Hc : carry_shaped d (0%Z, t0, 0, x0, [y0], z0, k))
    by (repeat split; assumption).
  destruct (scan_loop_default d (step m) n Hs Hd _ Hc)
    as (cf & os & E & Hxs & Hcf).
  simpl in Hxs, Hcf. rewrite (default_x_path_frozen d x0 n k Hx) in Hxs, Hcf.
  exists cf, (map (fun o => snd (fst o)) os), (map snd os).
  unfold NeuralFBSDE_call, u_and_dudx.
  change (zeros 1) with [0]. erewrite bind_Some by exact E0.
  cbv beta iota. rewrite (lax_scan_shaped d) by assumption.
  erewrite bind_Some by exact E. unfold stack. rewrite Hxs.
  split; [reflexivity|]. rewrite Hcf.
  clear. induction n as [|n IH]; [reflexivity|].
  cbn [repeat]. now rewrite last_cons, IH.
Qed.

End ZeroStep.

Lemma zero_dt_freezes_state_witness :
  exists cf yt ys,
    NeuralFBSDE_call (demo_model 1) demo_x0 0 0 5 1 1%positive
      = Some (cf, (repeat demo_x0 5, yt, ys)) /\
    carry_x cf = demo_x0.
Proof.
  apply (zero_dt_freezes_state 2 (demo_model 1)).
  - apply demo_model_shaped.
  - repeat split.
  - reflexivity.
Defined.

(** ** The training driver *)

Lemma concat_pairs_length k :
  length (concat (repeat [1; 1 / 2] k)) = (2 * k)%nat.
Proof. induction k as [|k IH]; simpl in *; [reflexivity|]. rewrite IH. lia. Qed.

Lemma concat_pairs_nth k : forall j, (j < 2 * k)%nat ->
  nth j (concat (repeat [1; 1 / 2] k)) 0 = if Nat.even j then 1 else 1 / 2.
Proof.
  induction k as [|k IH]; intros j Hj; [lia|].
  destruct j as [|[|j]]; try reflexivity.
  cbn [repeat concat app nth]. rewrite IH by lia. reflexivity.
Qed.

Lemma train_x0_even (args : Args.t) :
  Nat.even (Args.dim args) = true ->
  train_x0 args =
    Some (repeat (concat (repeat [1; 1 / 2] (Args.dim args / 2)))
            (Args.batch_size args)) /\
  (2 * (Args.dim args / 2))%nat = Args.dim args.
Proof.
  intros Ev. apply Nat.even_spec in Ev. destruct Ev as [h Eh].
  assert (E2 : (2 * (Args.dim args / 2))%nat = Args.dim args).
  { rewrite Eh. replace (2 * h)%nat with (h * 2)%nat by lia.
    rewrite Nat.div_mul by lia. lia. }
  split; [|exact E2].
  unfold train_x0, broadcast_to.
  now rewrite concat_pairs_length, E2, Nat.eqb_refl.
Qed.

Lemma train_x0_odd (args : Args.t) :
  Nat.even (Args.dim args) = false -> train_x0 args = None.
Proof.
  intros Ev.
  assert (Hodd : Nat.odd (Args.dim args) = true)
    by (unfold Nat.odd; now rewrite Ev).
  apply Nat.odd_spec in Hodd. destruct Hodd as [h Eh].
  assert (E2 : (2 * (Args.dim args / 2))%nat = (2 * h)%nat).
  { rewrite Eh. replace (2 * h + 1)%nat with (1 + h * 2)%nat by lia.
    rewrite Nat.div_add by lia. simpl. lia. }
  unfold train_x0, broadcast_to. rewrite concat_pairs_length, E2.
  destruct (Nat.eqb_spec (2 * h) (Args.dim args)); [lia|].
  destruct (Nat.eqb_spec (2 * h) 1); [lia|]. reflexivity.
Qed.

(** X13.  The initial batch of [train] exists exactly for an even
    dimension: then it is [batch_size] copies of the row
    [1, 0.5, 1, 0.5, ...] of length [dim]; for an odd [dim] the row has
    [dim - 1] entries and [broadcast_to] raises. *)
Theorem train_x0_spec (args : Args.t) :
  if Nat.even (Args.dim args)
  then exists row,
         train_x0 args = Some (repeat row (Args.batch_size args)) /\
         length row = Args.dim args /\
         forall j, (j < Args.dim args)%nat ->
           nth j row 0 = if Nat.even j then 1 else 1 / 2
  else train_x0 args = None.
Proof.
  destruct (Nat.even (Args.dim args)) eqn:Ev.
  - destruct (train_x0_even args Ev) as [E E2].
    exists (concat (repeat [1; 1 / 2] (Args.dim args / 2))).
    split; [exact E|]. split.
    + now rewrite concat_pairs_length.
    + intros j Hj. apply concat_pairs_nth. lia.
  - now apply train_x0_odd.
Qed.

Section DriverProperties.

Context {key : Type} `{PRNG key}.

Variable PRNGKey : Z -> key.
Variable eqx_nn_MLP : nat -> nat -> nat -> nat -> key -> MLP.
Variables Grads Updates OptState Features : Type.
Variable filter_grad :
  (NeuralFBSDE -> option (R * list (list array))) -> NeuralFBSDE -> Grads.
Variable optimizer_update : Grads -> OptState -> Updates * OptState.
Variable apply_updates : NeuralFBSDE -> Updates -> NeuralFBSDE.
Variable optimizer_init : NeuralFBSDE -> OptState.
Variable make_cost_model_feature : NeuralFBSDE -> option Features.

Local Notation "'loop'" :=
  (train_loop Grads Updates OptState filter_grad optimizer_update
     apply_updates).
Local Notation "'run'" :=
  (train PRNGKey eqx_nn_MLP Grads Updates OptState Features filter_grad
     optimizer_update apply_updates optimizer_init make_cost_model_feature).
Local Notation "'model0' a" :=
  (NeuralFBSDE_init eqx_nn_MLP (Args.dim a + 1) 1 16 4 (Args.dim a)
     (PRNGKey 0)) (at level 10, a at level 9).

Lemma iter_key_S (k : key) i : iter_key (fst (split k)) i = iter_key k (S i).
Proof. reflexivity. Qed.

Lemma train_loop_inv iters :
  forall args x0 opt_state (rng : key) model log fin,
  loop iters args x0 opt_state rng model = Some (log, fin) ->
  length log = iters /\
  Forall (fun it => it_opt_state _ it = opt_state) log /\
  (forall i it, nth_error log i = Some it -> it_key _ it = iter_key rng i) /\
  fst fin = derive rng (repeat false iters).
Proof.
  induction iters as [|iters IH]; intros args x0 opt_state rng model log fin E.
  - injection E as <- <-. simpl. repeat split; auto.
    intros [|i] it; discriminate.
  - cbn [train_loop] in E. destruct (split rng) as [rng' other] eqn:Es.
    apply bind_inv in E as ([[[l model'] opt'] y] & _ & E).
    apply bind_inv in E as ([log' fin'] & E' & E).
    injection E as <- <-.
    apply IH in E' as (El & Ho & Hk & Hf).
    assert (Er : rng' = fst (split rng)) by (now rewrite Es).
    repeat split.
    + simpl. now rewrite El.
    + constructor; [reflexivity | exact Ho].
    + intros [|i] it Hit.
      * injection Hit as <-. simpl. rewrite Er. reflexivity.
      * simpl in Hit. rewrite (Hk i it Hit), Er. apply iter_key_S.
    + rewrite Hf, Er. reflexivity.
Qed.

Lemma train_loop_total d iters : forall args x0 opt_state (rng : key) model,
  updates_keep_shapes _ apply_updates d ->
  step_shaped d (step model) -> Forall (fun x => length x = d) x0 ->
  exists log fin, loop iters args x0 opt_state rng model = Some (log, fin).
Proof.
  intros args x0 opt_state rng model Hu.
  revert rng model. induction iters as [|iters IH]; intros rng model Hs Hx.
  - simpl. eauto.
  - cbn [train_loop]. destruct (split rng) as [rng' other].
    destruct (vmap_model_shaped d model x0 0 (Args.dt args)
                (Args.num_timesteps args) (Args.unroll args) rng' Hs Hx)
      as (out & E & Hout & _).
    unfold train_step.
    rewrite (loss_fn_shaped d _ _ _ _ _ _ _ out E Hout). simpl bind.
    destruct (optimizer_update _ opt_state) as [updates opt'].
    simpl bind.
    destruct (IH rng' (apply_updates model updates)) as (log & fin & El);
      [now apply Hu | assumption |].
    rewrite El. simpl. eauto.
Qed.

Lemma model0_shaped (args : Args.t) :
  MLP_sized eqx_nn_MLP -> step_shaped (Args.dim args) (step (model0 args)).
Proof.
  intros Hmlp. split; [|split].
  - simpl. rewrite Nat.add_1_r.
    destruct (Hmlp (S (Args.dim args)) 16%nat 4%nat (PRNGKey 0)) as [Hin Hsh].
    split; [exact Hin | exact Hsh].
  - apply default_coeffs_shaped. repeat split.
  - reflexivity.
Qed.

Lemma train_total (args : Args.t) :
  MLP_sized eqx_nn_MLP ->
  updates_keep_shapes _ apply_updates (Args.dim args) ->
  (forall m, make_cost_model_feature m <> None) ->
  Nat.even (Args.dim args) = true -> Args.num_iters args <> 0%nat ->
  exists log fin, run args = Some (log, fin).
Proof.
  intros Hmlp Hupd Hcost Hev Hit. unfold train.
  destruct (make_cost_model_feature (model0 args)) eqn:Ec;
    [simpl bind | now apply Hcost in Ec].
  destruct (train_x0_even args Hev) as [Ex0 E2]. rewrite Ex0. simpl bind.
  destruct (train_loop_total (Args.dim args) (Args.num_iters args) args
              (repeat (concat (repeat [1; 1 / 2] (Args.dim args / 2)))
                 (Args.batch_size args))
              (optimizer_init (model0 args)) (PRNGKey 0) (model0 args) Hupd
              (model0_shaped args Hmlp)) as (log & fin & El).
  { apply Forall_forall. intros x Hx. apply repeat_spec in Hx. subst x.
    now rewrite concat_pairs_length. }
  erewrite bind_Some by exact El. cbv beta.
  destruct (Nat.eqb_spec (Args.num_iters args) 0); [contradiction|]. eauto.
Qed.

(** X14.  Whenever [train] completes, it has run [num_iters] training
    steps and every one of them was called with the optimizer state
    [optimizer.init] returned for the initial model: the state a training
    step returns is never passed on.  Iteration [i] used the key reached
    from [PRNGKey(0)] by taking the first half of [i + 1] successive
    splits, and the loop ends holding the key of its last iteration. *)
Theorem train_log (args : Args.t) log fin :
  run args = Some (log, fin) ->
  length log = Args.num_iters args /\
  Forall (fun it => it_opt_state _ it = optimizer_init (model0 args)) log /\
  (forall i it, nth_error log i = Some it ->
     it_key _ it = iter_key (PRNGKey 0) i) /\
  fst fin = derive (PRNGKey 0) (repeat false (Args.num_iters args)).
Proof.
  unfold train. intros E.
  destruct (make_cost_model_feature _); [simpl bind in E | discriminate].
  destruct (train_x0 args) as [x0|]; [simpl bind in E | discriminate].
  destruct (loop _ _ _ _ _ _) as [[log' fin']|] eqn:El;
    [simpl bind in E | discriminate].
  destruct (Args.num_iters args =? 0)%nat; [discriminate|].
  injection E as <- <-. now apply train_loop_inv in El.
Qed.

(** X15.  [train] raises when the dimension is odd (the initial batch
    cannot be built) and when [num_iters] is 0 (the name [compile_time],
    bound in the first iteration, is read after the loop). *)
Theorem train_raises (args : Args.t) :
  Nat.odd (Args.dim args) = true \/ Args.num_iters args = 0%nat ->
  run args = None.
Proof.
  intros Hbad. unfold train.
  destruct (make_cost_model_feature _); [simpl bind | reflexivity].
  destruct Hbad as [Hodd | Hzero].
  - unfold Nat.odd in Hodd.
    destruct (Nat.even (Args.dim args)) eqn:Ev; [discriminate|].
    now rewrite (train_x0_odd args Ev).
  - destruct (train_x0 args) as [x0|]; [simpl bind | reflexivity].
    rewrite Hzero.
    destruct (loop 0 args x0 _ _ _) as [r|]; reflexivity.
Qed.

(** X16.  With a network library that honours the input size, updates
    that change no shape and a cost analysis that returns, [train] runs to
    completion for every even dimension and every positive number of
    iterations: no training step raises, and [num_iters] of them are
    performed. *)
Theorem train_runs (args : Args.t) :
  MLP_sized eqx_nn_MLP ->
  updates_keep_shapes _ apply_updates (Args.dim args) ->
  (forall m, make_cost_model_feature m <> None) ->
  Nat.even (Args.dim args) = true -> Args.num_iters args <> 0%nat ->
  exists log fin,
    run args = Some (log, fin) /\ length log = Args.num_iters args.
Proof.
  intros Hmlp Hupd Hcost Hev Hit.
  destruct (train_total args Hmlp Hupd Hcost Hev Hit) as (log & fin & E).
  exists log, fin. split; [exact E|].
  unfold train in E.
  destruct (make_cost_model_feature _); [simpl bind in E | discriminate].
  destruct (train_x0 args) as [x0|]; [simpl bind in E | discriminate].
  destruct (loop _ _ _ _ _ _) as [[log' fin']|] eqn:El;
    [simpl bind in E | discriminate].
  destruct (Args.num_iters args =? 0)%nat; [discriminate|].
  injection E as <- <-. now apply train_loop_inv in El.
Qed.

End DriverProperties.

(** The demo driver meets the hypotheses on the collaborators. *)
Lemma linear_MLP_sized : MLP_sized linear_MLP.
Proof.
  intros i w dp k. split; [reflexivity|].
  intros v Hv. simpl. now rewrite length_map.
Qed.

Lemma demo_apply_keeps_shapes d : updates_keep_shapes _ demo_apply d.
Proof.
  intros m u ((Hin & Hsh) & Hc & Hn). split; [|split].
  - split; [exact Hin|]. intros v Hv. simpl. rewrite length_map. auto.
  - apply default_coeffs_shaped. repeat split.
  - exact Hn.
Qed.

Lemma train_log_witness :
  exists log fin,
    demo_train demo_args = Some (log, fin) /\
    length log = 3%nat /\
    Forall (fun it => it_opt_state _ it = O) log /\
    (forall i it, nth_error log i = Some it ->
       it_key _ it = iter_key 1%positive i) /\
    fst fin = derive 1%positive (repeat false 3).
Proof.
  destruct (train_total (fun _ => 1%positive) linear_MLP unit positive nat
              unit (fun _ _ => tt) demo_update demo_apply (fun _ => O)
              (fun _ => Some tt) demo_args linear_MLP_sized
              (demo_apply_keeps_shapes 2))
    as (log & fin & E); try reflexivity; try discriminate.
  exists log, fin. split; [exact E|].
  exact (train_log (fun _ => 1%positive) linear_MLP unit positive nat unit
           (fun _ _ => tt) demo_update demo_apply (fun _ => O)
           (fun _ => Some tt) demo_args log fin E).
Defined.

Lemma train_raises_witness :
  demo_train {| Args.batch_size := 4; Args.dt := 1 / 5; Args.dim := 3;
                Args.num_timesteps := 5; Args.num_iters := 3;
                Args.depth := 3; Args.width_size := 64; Args.unroll := 10;
                Args.T := 1 |} = None /\
  demo_train {| Args.batch_size := 4; Args.dt := 1 / 5; Args.dim := 2;
                Args.num_timesteps := 5; Args.num_iters := 0;
                Args.depth := 3; Args.width_size := 64; Args.unroll := 10;
                Args.T := 1 |} = None.
Proof.
  split; apply train_raises; [left | right]; reflexivity.
Defined.

Lemma train_runs_witness :
  exists log fin,
    demo_train demo_args = Some (log, fin) /\ length log = 3%nat.
Proof.
  apply (train_runs (fun _ => 1%positive) linear_MLP unit positive nat unit
           (fun _ _ => tt) demo_update demo_apply (fun _ => O)
           (fun _ => Some tt) demo_args linear_MLP_sized
           (demo_apply_keeps_shapes 2));
    try reflexivity; discriminate.
Defined.

(** ** State-proportional volatility *)

Lemma zip_with_nil_r f a : zip_with f a [] = [].
Proof. now destruct a. Qed.

Lemma proportional_entry_zero c dt x : forall ws j,
  nth j x 0 = 0 ->
  nth j (vadd (vadd x (scale_r (zeros_like x) dt))
              (hadamard (scale_l c x) ws)) 0 = 0.
Proof.
  unfold vadd, hadamard, scale_r, scale_l, zeros_like, zeros.
  induction x as [|a x IH]; intros ws j Hj.
  - simpl. now destruct j.
  - destruct ws as [|w ws].
    + rewrite !zip_with_nil_r. now destruct j.
    + cbn [length repeat map zip_with]. destruct j as [|j].
      * simpl in Hj |- *. subst a. lra.
      * simpl in Hj |- *. now apply IH.
Qed.

Section Proportional.

Context {key : Type} `{PRNG key}.

Lemma NeuralFBSDE_call_default d m x0 t0 dt n unroll (k : key) :
  step_shaped d (step m) -> has_default_coeffs (step m) -> length x0 = d ->
  exists cf yt ys,
    NeuralFBSDE_call m x0 t0 dt n unroll k =
      Some (cf, (default_x_path d x0 dt k n, yt, ys)) /\
    carry_x cf = last (default_x_path d x0 dt k n) x0.
Proof.
  intros Hs Hd Hx.
  destruct (FNN_call_shaped d (unet (step m)) 0 x0 (proj1 Hs) Hx)
    as (y0 & z0 & E0 & Lz0).
  assert (Hc : carry_shaped d (0%Z, t0, dt, x0, [y0], z0, k))
    by (repeat split; assumption).
  destruct (scan_loop_default d (step m) n Hs Hd _ Hc)
    as (cf & os & E & Hxs & Hcf).
  exists cf, (map (fun o => snd (fst o)) os), (map snd os).
  unfold NeuralFBSDE_call, u_and_dudx.
  change (zeros 1) with [0]. erewrite bind_Some by exact E0.
  cbv beta iota. rewrite (lax_scan_shaped d) by assumption.
  erewrite bind_Some by exact E. unfold stack. simpl in Hxs, Hcf.
  rewrite Hxs. auto.
Qed.

Lemma default_x_path_zero d dt j n : forall x (k : key),
  nth j x 0 = 0 ->
  Forall (fun x' => nth j x' 0 = 0) (default_x_path d x dt k n) /\
  nth j (last (default_x_path d x dt k n) x) 0 = 0.
Proof.
  induction n as [|n IH]; intros x k Hj.
  - simpl. auto.
  - cbn [default_x_path].
    assert (Hnext : nth j (default_x_next d x dt k) 0 = 0)
      by (now apply proportional_entry_zero).
    destruct (IH (default_x_next d x dt k) (snd (split k)) Hnext) as [HF HL].
    split; [constructor; assumption|].
    now rewrite last_cons.
Qed.

(** X18.  Under the coefficients of [FBSDEStep.__init__] (no drift,
    volatility proportional to the state) and for a time step [0 <= dt], a
    coordinate of the state that is zero stays zero: if entry [j] of [x0]
    is 0 then entry [j] of every [X'] of the trajectory, and of the final
    [X], is 0. *)
Theorem zero_coordinate_absorbing d m x0 t0 dt n unroll (k : key) j :
  step_shaped d (step m) -> has_default_coeffs (step m) -> length x0 = d ->
  0 <= dt -> nth j x0 0 = 0 ->
  exists cf xs yt ys,
    NeuralFBSDE_call m x0 t0 dt n unroll k = Some (cf, (xs, yt, ys)) /\
    Forall (fun x => nth j x 0 = 0) xs /\ nth j (carry_x cf) 0 = 0.
Proof.
  intros Hs Hd Hx _ Hj.
  destruct (NeuralFBSDE_call_default d m x0 t0 dt n unroll k Hs Hd Hx)
    as (cf & yt & ys & E & Ecf).
  destruct (default_x_path_zero d dt j n x0 k Hj) as [HF HL].
  exists cf, (default_x_path d x0 dt k n), yt, ys.
  split; [exact E|]. split; [exact HF|]. now rewrite Ecf.
Qed.

End Proportional.

Lemma zero_coordinate_absorbing_witness :
  exists cf xs yt ys,
    NeuralFBSDE_call (demo_model 1) [1; 0] 0 (1 / 5) 5 1 1%positive
      = Some (cf, (xs, yt, ys)) /\
    Forall (fun x => nth 1 x 0 = 0) xs /\ nth 1 (carry_x cf) 0 = 0.
Proof.
  apply (zero_coordinate_absorbing 2 (demo_model 1)).
  - apply demo_model_shaped.
  - repeat split.
  - reflexivity.
  - lra.
  - reflexivity.
Defined.

(** ** One noise source for every coordinate *)

Lemma mul_scalar s dW :
  length dW = 1%nat -> s *? dW = Some (map (fun x => x * hd 0 dW) s).
Proof.
  destruct dW as [|w [|? ?]]; try discriminate. intros _.
  unfold mul, broadcast. cbn [length hd].
  destruct (Nat.eqb_spec (length s) 1) as [E|N].
  - destruct s as [|a [|? ?]]; try discriminate. reflexivity.
  - reflexivity.
Qed.

Section ScalarNoise.

Context {key : Type} `{PRNG key}.

Variable d : nat.
Variable s : FBSDEStep.
Hypothesis Hu : oracle_shaped d (unet s).
Hypothesis Hc : coeffs_shaped d s.
Hypothesis Hn : noise_size s = 1%nat.

Lemma FBSDEStep_call_scalar_noise i t0 dt x y z (k : key) :
  length x = d -> length z = d ->
  exists x1 yt y1 z1,
    FBSDEStep_call s (i, t0, dt, x, [y], z, k) =
      Some ((i + 1, t0, dt, x1, [y1], z1, snd (split k))%Z,
            (x1, [yt], [y1])) /\
    length x1 = d /\ length z1 = d.
Proof.
  intros Hx Hz.
  destruct (Hc [t0 + IZR i * dt] x [y] z) as
    ((m & Em & Lm) & (g & Eg & Lg) & (p & Ep & Lp)); auto.
  destruct p as [|p [|? ?]]; try discriminate.
  rewrite FBSDEStep_call_body. unfold step_body.
  rewrite Em. simpl bind. unfold add at 1.
  rewrite broadcast_same by (rewrite scale_r_length; congruence).
  simpl bind. rewrite Eg. simpl bind.
  rewrite mul_scalar by (now rewrite increment_length).
  simpl bind. unfold add at 1.
  assert (L1 : length (zip_with Rplus x (scale_r m dt)) = d)
    by (rewrite zip_with_length; rewrite ?scale_r_length; congruence).
  assert (L2 : forall w, length (map (fun e => e * w) g) = d)
    by (intros w; rewrite length_map; exact Lg).
  rewrite broadcast_same by (rewrite L1, L2; reflexivity).
  simpl bind. rewrite Ep. simpl bind.
  unfold mul at 1. rewrite (broadcast_same Rmult z g) by congruence.
  simpl bind. rewrite mul_scalar by (now rewrite increment_length).
  simpl bind.
  set (x1 := zip_with Rplus _ _).
  assert (Lx1 : length x1 = d).
  { unfold x1. rewrite zip_with_length; rewrite ?L1, ?L2; reflexivity. }
  destruct (FNN_call_shaped d (unet s) (t0 + IZR (i + 1) * dt) x1 Hu Lx1)
    as (y1 & z1 & E1 & Lz1).
  rewrite E1. simpl. eauto 10.
Qed.

Lemma scan_loop_scalar_noise n : forall c : Carry, carry_shaped d c ->
  exists cf os, scan_loop (FBSDEStep_call s) c n = Some (cf, os) /\
    carry_shaped d cf /\ Forall (output_shaped d) os /\ length os = n.
Proof.
  induction n as [|n IH]; intros c Hcs.
  - exists c, []. simpl. auto.
  - destruct c as [[[[[[i t0] dt] x] y] z] k].
    destruct Hcs as (Hx & Hy & Hz). simpl in Hx, Hy, Hz.
    destruct y as [|y [|? ?]]; try discriminate.
    destruct (FBSDEStep_call_scalar_noise i t0 dt x y z k Hx Hz)
      as (x1 & yt & y1 & z1 & E & Lx1 & Lz1).
    destruct (IH (i + 1, t0, dt, x1, [y1], z1, snd (split k))%Z)
      as (cf & os & E' & Hcf & Hos & Hlen).
    { repeat split; assumption. }
    exists cf, ((x1, [yt], [y1]) :: os).
    cbn [scan_loop]. erewrite bind_Some by exact E. cbv beta iota.
    rewrite E'. simpl.
    split; [reflexivity | split; [exact Hcf | split]].
    + constructor; [repeat split; assumption | exact Hos].
    + now rewrite Hlen.
Qed.

End ScalarNoise.

(** X19.  A noise dimension of 1 is accepted for any state dimension:
    numpy stretches the single increment over all coordinates, so every
    coordinate is driven by the same Brownian increment, and the run
    returns a trajectory of [num_timesteps] states of the state's
    dimension. *)
Theorem scalar_noise_accepted {key : Type} `{PRNG key}
    d m x0 t0 dt n unroll (k : key) :
  oracle_shaped d (unet (step m)) -> coeffs_shaped d (step m) ->
  noise_size (step m) = 1%nat -> length x0 = d ->
  exists cf xs yt ys,
    NeuralFBSDE_call m x0 t0 dt n unroll k = Some (cf, (xs, yt, ys)) /\
    length xs = n /\ Forall (fun x => length x = d) xs.
Proof.
  intros Hu Hc Hn Hx.
  destruct (FNN_call_shaped d (unet (step m)) 0 x0 Hu Hx)
    as (y0 & z0 & E0 & Lz0).
  destruct (FBSDEStep_call_scalar_noise d (step m) Hu Hc Hn 0 t0 dt x0 y0 z0
              k Hx Lz0) as (x1 & yt1 & y1 & z1 & E1 & Lx1 & Lz1).
  destruct (scan_loop_scalar_noise d (step m) Hu Hc Hn n
              (0%Z, t0, dt, x0, [y0], z0, k))
    as (cf & os & E & Hcf & Hos & Hlen); [repeat split; assumption|].
  exists cf, (map (fun o => fst (fst o)) os),
    (map (fun o => snd (fst o)) os), (map snd os).
  unfold NeuralFBSDE_call, u_and_dudx.
  change (zeros 1) with [0]. erewrite bind_Some by exact E0.
  cbv beta iota.
  assert (Escan : lax_scan (FBSDEStep_call (step m))
                    (0%Z, t0, dt, x0, [y0], z0, k) n unroll = Some (cf, os)).
  { unfold lax_scan. erewrite bind_Some by exact E1. cbv beta iota.
    unfold carry_same_shape. simpl carry_x. simpl carry_y. simpl carry_z.
    rewrite Hx, Lx1, Lz0, Lz1, !Nat.eqb_refl. exact E. }
  erewrite bind_Some by exact Escan. split; [reflexivity|].
  rewrite length_map. split; [exact Hlen|].
  apply Forall_map. eapply Forall_impl; [|exact Hos].
  intros o (Ho & _). exact Ho.
Qed.

Lemma scalar_noise_accepted_witness :
  exists cf xs yt ys,
    NeuralFBSDE_call (NeuralFBSDE_init linear_MLP 3 1 16 4 1 1%positive)
      demo_x0 0 (1 / 5) 5 1 1%positive = Some (cf, (xs, yt, ys)) /\
    length xs = 5%nat /\ Forall (fun x => length x = 2%nat) xs.
Proof.
  apply (scalar_noise_accepted 2).
  - split; [reflexivity|]. intros v Hv. simpl. rewrite length_map. auto.
  - apply default_coeffs_shaped. repeat split.
  - reflexivity.
  - reflexivity.
Defined.
